(** * Version handlers of dyad: [src/ipc/handlers/version_handlers.ts]

    A shallow embedding of the four IPC handlers registered by
    [registerVersionHandlers] ([list-versions], [get-current-branch],
    [revert-version], [checkout-version]) and the properties of the
    version-reconciliation engine they implement.

    The handlers are asynchronous functions that talk to four outside
    collaborators: the drizzle database ([db]), node's [fs], the
    [isomorphic-git] library and the [electron-log] logger.  They are
    embedded as programs of a state-and-exception monad, written against
    an interface ([Collab]) that lists exactly the calls the source
    makes.  General results are proved for every implementation of the
    interface; results about files on disk and rows of the [messages]
    table are proved for a world ([World]) with a POSIX-like file tree
    and an in-memory table, still for every behaviour of the git
    library. *)

From Stdlib Require Import Strings.Byte.
From stdpp Require Import base gmap strings list sorting pretty.

Local Open Scope string_scope.
Local Open Scope list_scope.
Local Open Scope Z_scope.

(** ** JavaScript values used by the handlers *)

(** [new Error(msg)]: the handlers only ever read [error.message]. *)
Record JsError := Error { err_message : string }.

(** The completion of an awaited call: a value, or a thrown error. *)
Inductive Outcome (A : Type) : Type :=
| Returned (a : A)
| Raised (e : JsError).
Arguments Returned {A} a.
Arguments Raised {A} e.

(** Paths are kept normalised, as their list of segments: [path.join] is
    concatenation and [path.dirname] drops the last segment. *)
Abbreviation Path := (list string).
Definition path_join (a b : Path) : Path := a ++ b.
Definition path_dirname (p : Path) : Path := removelast p.

(** File contents ([Uint8Array] / [Buffer]). *)
Abbreviation Bytes := (list Byte.byte).
Global Instance byte_eq_dec : EqDecision Byte.byte := Byte.byte_eq_dec.

(** Rows of the [apps] and [messages] tables, restricted to the columns
    the handlers read. *)
Record App := { app_id : Z; app_path : string }.
Record Message := { msg_id : Z; msg_chatId : Z; msg_commitHash : option string }.

(** What [git.log] yields, and the [Version] the handler maps it to. *)
Record CommitAuthor := { ca_name : string; ca_email : string; ca_timestamp : Z }.
Record CommitObject := { commit_message : string; commit_author : CommitAuthor }.
Record ReadCommitResult := { rc_oid : string; rc_commit : CommitObject }.
Record Version := { oid : string; message : string; timestamp : Z }.

(** The name and e-mail pair returned by [getGitAuthor]. *)
Record Author := { author_name : string; author_email : string }.

(** [BranchResult] of [ipc_types]:
    [{success: true, data: {branch}} | {success: false, errorMessage}]. *)
Inductive BranchResult :=
| BranchSuccess (branch : string)
| BranchFailure (errorMessage : string).

(** The object literal [{ success: true }] returned by revert and checkout. *)
Record SuccessResult := { success : bool }.

(** A row of [git.statusMatrix]:
    [[filepath, headStatus, workdirStatus, stageStatus]]. *)
Definition StatusRow : Type := Path * Z * Z * Z.
Definition row_filepath (r : StatusRow) : Path := r.1.1.1.
Definition row_head (r : StatusRow) : Z := r.1.1.2.
Definition row_workdir (r : StatusRow) : Z := r.1.2.

(** Template-literal interpolation of a number. *)
Definition num (z : Z) : string := pretty z.

(** ** The monad of handler bodies *)

Definition M (S A : Type) : Type := S → S * Outcome A.

Global Instance M_ret {S} : MRet (M S) := λ A a s, (s, Returned a).
Global Instance M_bind {S} : MBind (M S) := λ A B f m s,
  match m s with
  | (s', Returned a) => f a s'
  | (s', Raised e) => (s', Raised e)
  end.

(** [throw e] *)
Definition throw {S A} (e : JsError) : M S A := λ s, (s, Raised e).

(** [try { body } catch (error) { handler }] *)
Definition try_catch {S A} (body : M S A) (handler : JsError → M S A) : M S A :=
  λ s, match body s with
       | (s', Returned a) => (s', Returned a)
       | (s', Raised e) => handler e s'
       end.

(** A synchronous read of the outside world that cannot throw. *)
Definition gets {S A} (f : S → A) : M S A := λ s, (s, Returned (f s)).
(** A call that cannot throw and returns nothing (logging). *)
Definition modify {S} (f : S → S) : M S unit := λ s, (f s, Returned tt).

(** [for (const x of l) { f x }] *)
Fixpoint for_of {S A} (l : list A) (f : A → M S unit) : M S unit :=
  match l with
  | [] => mret tt
  | x :: l' => f x;; for_of l' f
  end.

(** JavaScript's [a || b] on an optional string: [undefined] and the
    empty string are falsy. *)
Definition or_else (a : option string) (b : string) : string :=
  match a with
  | Some s => if decide (s = "") then b else s
  | None => b
  end.

(** ** The collaborators, as the source calls them *)

Record Collab (S : Type) := {
  (** [await db.query.apps.findFirst({ where: eq(apps.id, appId) })]:
      like every awaited call it can reject *)
  db_apps_findFirst : Z → M S (option App);
  (** [getDyadAppPath(app.path)] of [paths/paths] *)
  getDyadAppPath : string → Path;
  (** [fs.existsSync(p)] *)
  fs_existsSync : Path → S → bool;
  (** [git.log({ fs, dir, depth })] *)
  git_log : Path → Z → M S (list ReadCommitResult);
  (** [git.currentBranch({ fs, dir, fullname })]; [None] is [undefined] *)
  git_currentBranch : Path → bool → M S (option string);
  (** [git.checkout({ fs, dir, ref, force })] *)
  git_checkout : Path → string → bool → M S unit;
  (** [git.statusMatrix({ fs, dir, ref })] *)
  git_statusMatrix : Path → string → M S (list StatusRow);
  (** [git.readBlob({ fs, dir, oid, filepath })], projected on [blob] *)
  git_readBlob : Path → string → Path → M S Bytes;
  (** [fsPromises.mkdir(p, { recursive })] *)
  fs_mkdir : Path → bool → M S unit;
  (** [fsPromises.writeFile(p, data)] *)
  fs_writeFile : Path → Bytes → M S unit;
  (** [fsPromises.unlink(p)] *)
  fs_unlink : Path → M S unit;
  (** [git.remove({ fs, dir, filepath })] *)
  git_remove : Path → Path → M S unit;
  (** [git.add({ fs, dir, filepath })] *)
  git_add : Path → Path → M S unit;
  (** [git.commit({ fs, dir, message, author })] *)
  git_commit : Path → string → Author → M S string;
  (** [getGitAuthor()] of [utils/git_author] *)
  getGitAuthor : M S Author;
  (** [db.query.messages.findFirst({ where: eq(messages.commitHash, h) })] *)
  db_messages_findFirst : string → M S (option Message);
  (** [db.query.messages.findMany({ where: and(eq(messages.chatId, c),
      gt(messages.id, i)), orderBy: desc(messages.id) })] *)
  db_messages_findMany : Z → Z → M S (list Message);
  (** [db.delete(messages).where(and(eq(messages.chatId, c),
      gt(messages.id, i)))] *)
  db_messages_delete : Z → Z → M S unit;
  (** [logger.error(text, error)] and [logger.log(text)] *)
  logger_error : string → JsError → S → S;
  logger_log : string → S → S
}.

Arguments db_apps_findFirst {S} _ _ _.
Arguments getDyadAppPath {S} _ _.
Arguments fs_existsSync {S} _ _ _.
Arguments git_log {S} _ _ _ _.
Arguments git_currentBranch {S} _ _ _ _.
Arguments git_checkout {S} _ _ _ _ _.
Arguments git_statusMatrix {S} _ _ _ _.
Arguments git_readBlob {S} _ _ _ _ _.
Arguments fs_mkdir {S} _ _ _ _.
Arguments fs_writeFile {S} _ _ _ _.
Arguments fs_unlink {S} _ _ _.
Arguments git_remove {S} _ _ _ _.
Arguments git_add {S} _ _ _ _.
Arguments git_commit {S} _ _ _ _ _.
Arguments getGitAuthor {S} _ _.
Arguments db_messages_findFirst {S} _ _ _.
Arguments db_messages_findMany {S} _ _ _ _.
Arguments db_messages_delete {S} _ _ _ _.
Arguments logger_error {S} _ _ _ _.
Arguments logger_log {S} _ _ _.

(** ** The handlers *)

Section Handlers.
Context {S : Type} (c : Collab S).

(** [commits.map((commit) => ({ oid, message, timestamp }))] *)
Definition to_version (commit : ReadCommitResult) : Version :=
  {| oid := rc_oid commit;
     message := commit_message (rc_commit commit);
     timestamp := ca_timestamp (commit_author (rc_commit commit)) |}.

(** [ipcMain.handle("list-versions", ...)] *)
Definition list_versions (appId : Z) : M S (list Version) :=
  app ← db_apps_findFirst c appId;
  match app with
  | None => throw (Error "App not found")
  | Some app =>
    let appPath := getDyadAppPath c (app_path app) in
    git_dir ← gets (fs_existsSync c (path_join appPath [".git"]));
    if negb git_dir then mret []
    else
      try_catch
        (commits ← git_log c appPath 10000;
         mret (map to_version commits))
        (λ error,
           modify (logger_error c
             ("Error listing versions for app " +:+ num appId +:+ ":") error);;
           throw (Error ("Failed to list versions: " +:+ err_message error)))
  end.

(** [ipcMain.handle("get-current-branch", ...)] *)
Definition get_current_branch (appId : Z) : M S BranchResult :=
  app ← db_apps_findFirst c appId;
  match app with
  | None => mret (BranchFailure "App not found")
  | Some app =>
    let appPath := getDyadAppPath c (app_path app) in
    git_dir ← gets (fs_existsSync c (path_join appPath [".git"]));
    if negb git_dir then mret (BranchFailure "Not a git repository")
    else
      try_catch
        (currentBranch ← git_currentBranch c appPath false;
         mret (BranchSuccess (or_else currentBranch "<no-branch>")))
        (λ error,
           modify (logger_error c
             ("Error getting current branch for app " +:+ num appId +:+ ":") error);;
           mret (BranchFailure
             ("Failed to get current branch: " +:+ err_message error)))
  end.

(** The body of the [for ... of matrix] loop of [revert-version]. *)
Definition revert_row (appPath : Path) (previousVersionId : string)
    (row : StatusRow) : M S unit :=
  let '(filepath, headStatus, workdirStatus, stageStatus) := row in
  let fullPath := path_join appPath filepath in
  if headStatus =? 1 then
    if negb (workdirStatus =? 1) then
      blob ← git_readBlob c appPath previousVersionId filepath;
      fs_mkdir c (path_dirname fullPath) true;;
      fs_writeFile c fullPath blob
    else mret tt
  else if (headStatus =? 0) && negb (workdirStatus =? 0) then
    present ← gets (fs_existsSync c fullPath);
    if (present : bool) then
      fs_unlink c fullPath;;
      git_remove c appPath filepath
    else mret tt
  else mret tt.

(** Lines 188 to 224: the messages that follow the one carrying the
    commit hash are deleted. *)
Definition prune_messages (previousVersionId : string) : M S unit :=
  messageWithCommit ← db_messages_findFirst c previousVersionId;
  match messageWithCommit with
  | Some messageWithCommit =>
    let chatId := msg_chatId messageWithCommit in
    messagesToDelete ← db_messages_findMany c chatId (msg_id messageWithCommit);
    modify (logger_log c
      ("Deleting " +:+ num (Z.of_nat (length messagesToDelete)) +:+
       " messages after commit " +:+ previousVersionId +:+
       " from chat " +:+ num chatId));;
    if decide (0 < Z.of_nat (length messagesToDelete))
    then db_messages_delete c chatId (msg_id messageWithCommit)
    else mret tt
  | None => mret tt
  end.

(** The [try] block of [revert-version]. *)
Definition revert_try (appPath : Path) (previousVersionId : string)
    : M S SuccessResult :=
  git_checkout c appPath "main" true;;
  matrix ← git_statusMatrix c appPath previousVersionId;
  for_of matrix (revert_row appPath previousVersionId);;
  git_add c appPath ["."];;
  author ← getGitAuthor c;
  git_commit c appPath
    ("Reverted all changes back to version " +:+ previousVersionId) author;;
  prune_messages previousVersionId;;
  mret {| success := true |}.

(** The function passed to [withLock] by [revert-version]. *)
Definition revert_version (appId : Z) (previousVersionId : string)
    : M S SuccessResult :=
  app ← db_apps_findFirst c appId;
  match app with
  | None => throw (Error "App not found")
  | Some app =>
    let appPath := getDyadAppPath c (app_path app) in
    try_catch
      (revert_try appPath previousVersionId)
      (λ error,
         modify (logger_error c
           ("Error reverting to version " +:+ previousVersionId +:+
            " for app " +:+ num appId +:+ ":") error);;
         throw (Error ("Failed to revert version: " +:+ err_message error)))
  end.

(** The function passed to [withLock] by [checkout-version]. *)
Definition checkout_version (appId : Z) (versionId : string)
    : M S SuccessResult :=
  app ← db_apps_findFirst c appId;
  match app with
  | None => throw (Error "App not found")
  | Some app =>
    let appPath := getDyadAppPath c (app_path app) in
    try_catch
      (git_checkout c appPath versionId true;;
       mret {| success := true |})
      (λ error,
         modify (logger_error c
           ("Error checking out version " +:+ versionId +:+
            " for app " +:+ num appId +:+ ":") error);;
         throw (Error ("Failed to checkout version: " +:+ err_message error)))
  end.
End Handlers.

(** ** A world with a file tree, a message table and a git library *)

(** What a path of the file tree holds.  The root [[]] is a directory
    and is not stored. *)
Inductive Node :=
| File (content : Bytes)
| Dir.

Abbreviation FileTree := (gmap Path Node).

Definition is_dir (t : FileTree) (p : Path) : bool :=
  match p with
  | [] => true
  | _ => match t !! p with Some Dir => true | _ => false end
  end.

Definition is_file (t : FileTree) (p : Path) : bool :=
  match t !! p with Some (File _) => true | _ => false end.

(** [fs.existsSync] *)
Definition exists_sync (t : FileTree) (p : Path) : bool :=
  is_dir t p || is_file t p.

(** [mkdir -p]: walks down from [pre], creating what is missing; a file
    in the way is an error. *)
Fixpoint mkdir_from (pre : Path) (rest : list string) (t : FileTree)
    : Outcome FileTree :=
  match rest with
  | [] => Returned t
  | seg :: rest' =>
    let p := pre ++ [seg] in
    match t !! p with
    | Some (File _) =>
      Raised (Error (match rest' with
                     | [] => "EEXIST: file already exists, mkdir"
                     | _ => "ENOTDIR: not a directory, mkdir"
                     end))
    | Some Dir => mkdir_from p rest' t
    | None => mkdir_from p rest' (<[p:=Dir]> t)
    end
  end.

(** [fsPromises.mkdir(p, { recursive })] *)
Definition mkdir (p : Path) (recursive : bool) (t : FileTree) : Outcome FileTree :=
  if recursive then mkdir_from [] p t
  else if exists_sync t p then Raised (Error "EEXIST: file already exists, mkdir")
  else if is_dir t (path_dirname p) then Returned (<[p:=Dir]> t)
  else Raised (Error "ENOENT: no such file or directory, mkdir").

(** [fsPromises.writeFile(p, data)]: the parent must be a directory and
    [p] must not be one. *)
Definition write_file (p : Path) (data : Bytes) (t : FileTree) : Outcome FileTree :=
  if is_dir t p then Raised (Error "EISDIR: illegal operation on a directory, open")
  else if is_dir t (path_dirname p) then Returned (<[p:=File data]> t)
  else Raised (Error "ENOENT: no such file or directory, open").

(** [fsPromises.unlink(p)]: only a file can be unlinked. *)
Definition unlink (p : Path) (t : FileTree) : Outcome FileTree :=
  if is_file t p then Returned (delete p t)
  else if is_dir t p then Raised (Error "EPERM: operation not permitted, unlink")
  else Raised (Error "ENOENT: no such file or directory, unlink").

(** The calls made on the collaborators, in the order they were made.
    A blob read records what the library answered. *)
Inductive Event :=
| EvLog (dir : Path) (depth : Z)
| EvCurrentBranch (dir : Path) (fullname : bool)
| EvCheckout (dir : Path) (ref : string) (force : bool)
| EvStatusMatrix (dir : Path) (ref : string)
| EvReadBlob (dir : Path) (oid : string) (filepath : Path) (res : Outcome Bytes)
| EvMkdir (p : Path) (recursive : bool)
| EvWriteFile (p : Path) (data : Bytes)
| EvUnlink (p : Path)
| EvRemove (dir filepath : Path)
| EvAdd (dir filepath : Path)
| EvGetGitAuthor
| EvCommit (dir : Path) (message : string) (author : Author)
| EvFindMessage (commitHash : string)
| EvFindMessages (chatId after : Z)
| EvDeleteMessages (chatId after : Z).

Inductive LogLine :=
| LogError (text : string) (error : JsError)
| LogInfo (text : string).

(** The git library over a store of type [G].  The types say what each
    call can touch: reads leave everything as it is, [checkout] writes
    the store and the working tree, [remove], [add] and [commit] write
    the store only ([add] and [statusMatrix] read the working tree).
    Every call can throw. *)
Record GitLib (G : Type) := {
  lib_log : Path → Z → G → Outcome (list ReadCommitResult);
  lib_currentBranch : Path → bool → G → Outcome (option string);
  lib_checkout : Path → string → bool → G * FileTree → G * FileTree * Outcome unit;
  lib_statusMatrix : Path → string → G * FileTree → Outcome (list StatusRow);
  lib_readBlob : Path → string → Path → G → Outcome Bytes;
  lib_remove : Path → Path → G → G * Outcome unit;
  lib_add : Path → Path → G * FileTree → G * Outcome unit;
  lib_commit : Path → string → Author → G → G * Outcome string;
  (** where [getDyadAppPath] puts the app of a given [path] column *)
  lib_appPath : string → Path
}.
Arguments lib_log {G} _ _ _ _.
Arguments lib_currentBranch {G} _ _ _ _.
Arguments lib_checkout {G} _ _ _ _ _.
Arguments lib_statusMatrix {G} _ _ _ _.
Arguments lib_readBlob {G} _ _ _ _ _.
Arguments lib_remove {G} _ _ _ _.
Arguments lib_add {G} _ _ _ _.
Arguments lib_commit {G} _ _ _ _ _.
Arguments lib_appPath {G} _ _.

Record World (G : Type) := {
  apps : list App;
  messages : list Message;
  files : FileTree;
  repo : G;
  (** what [getGitAuthor()] resolves to *)
  gitAuthor : Outcome Author;
  logs : list LogLine;
  trace : list Event
}.
Arguments apps {G} _.
Arguments messages {G} _.
Arguments files {G} _.
Arguments repo {G} _.
Arguments gitAuthor {G} _.
Arguments logs {G} _.
Arguments trace {G} _.

Section WorldCollab.
Context {G : Type} (L : GitLib G).

Definition set_messages (ms : list Message) (w : World G) : World G :=
  {| apps := apps w; messages := ms; files := files w; repo := repo w;
     gitAuthor := gitAuthor w; logs := logs w; trace := trace w |}.
Definition set_files (t : FileTree) (w : World G) : World G :=
  {| apps := apps w; messages := messages w; files := t; repo := repo w;
     gitAuthor := gitAuthor w; logs := logs w; trace := trace w |}.
Definition set_repo (g : G) (w : World G) : World G :=
  {| apps := apps w; messages := messages w; files := files w; repo := g;
     gitAuthor := gitAuthor w; logs := logs w; trace := trace w |}.
Definition add_log (l : LogLine) (w : World G) : World G :=
  {| apps := apps w; messages := messages w; files := files w; repo := repo w;
     gitAuthor := gitAuthor w; logs := logs w ++ [l]; trace := trace w |}.
Definition record (ev : Event) (w : World G) : World G :=
  {| apps := apps w; messages := messages w; files := files w; repo := repo w;
     gitAuthor := gitAuthor w; logs := logs w; trace := trace w ++ [ev] |}.

(** A file-system call: the tree changes only when the call succeeds. *)
Definition fs_call (ev : Event) (f : FileTree → Outcome FileTree) : M (World G) unit :=
  λ w, match f (files w) with
       | Returned t => (set_files t (record ev w), Returned tt)
       | Raised e => (record ev w, Raised e)
       end.

(** The rows selected by [and(eq(messages.chatId, c), gt(messages.id, i))]. *)
Definition after (chatId i : Z) (m : Message) : Prop :=
  msg_chatId m = chatId ∧ i < msg_id m.
Global Instance after_dec chatId i m : Decision (after chatId i m).
Proof. unfold after. apply _. Defined.

(** [desc(messages.id)] *)
Definition id_desc (a b : Message) : Prop := msg_id b ≤ msg_id a.
Global Instance id_desc_dec a b : Decision (id_desc a b).
Proof. unfold id_desc. apply _. Defined.

Definition find_app (appId : Z) (w : World G) : option App :=
  List.find (λ a, bool_decide (app_id a = appId)) (apps w).
Definition find_message (commitHash : string) (w : World G) : option Message :=
  List.find (λ m, bool_decide (msg_commitHash m = Some commitHash)) (messages w).
Definition find_messages (chatId i : Z) (w : World G) : list Message :=
  merge_sort id_desc (filter (after chatId i) (messages w)).
Definition delete_messages (chatId i : Z) (w : World G) : World G :=
  set_messages (filter (λ m, ¬ after chatId i m) (messages w)) w.

(** The collaborators of a world.  Its two tables are held in memory:
    their queries always answer.  The lookup of the app is not recorded
    in the trace. *)
Definition world_collab : Collab (World G) := {|
  db_apps_findFirst := λ appId w, (w, Returned (find_app appId w));
  getDyadAppPath := lib_appPath L;
  fs_existsSync := λ p w, exists_sync (files w) p;
  git_log := λ dir depth w,
    (record (EvLog dir depth) w, lib_log L dir depth (repo w));
  git_currentBranch := λ dir fullname w,
    (record (EvCurrentBranch dir fullname) w, lib_currentBranch L dir fullname (repo w));
  git_checkout := λ dir ref force w,
    let r := lib_checkout L dir ref force (repo w, files w) in
    (set_files r.1.2 (set_repo r.1.1 (record (EvCheckout dir ref force) w)), r.2);
  git_statusMatrix := λ dir ref w,
    (record (EvStatusMatrix dir ref) w, lib_statusMatrix L dir ref (repo w, files w));
  git_readBlob := λ dir oid filepath w,
    let r := lib_readBlob L dir oid filepath (repo w) in
    (record (EvReadBlob dir oid filepath r) w, r);
  fs_mkdir := λ p recursive, fs_call (EvMkdir p recursive) (mkdir p recursive);
  fs_writeFile := λ p data, fs_call (EvWriteFile p data) (write_file p data);
  fs_unlink := λ p, fs_call (EvUnlink p) (unlink p);
  git_remove := λ dir filepath w,
    let r := lib_remove L dir filepath (repo w) in
    (set_repo r.1 (record (EvRemove dir filepath) w), r.2);
  git_add := λ dir filepath w,
    let r := lib_add L dir filepath (repo w, files w) in
    (set_repo r.1 (record (EvAdd dir filepath) w), r.2);
  git_commit := λ dir message author w,
    let r := lib_commit L dir message author (repo w) in
    (set_repo r.1 (record (EvCommit dir message author) w), r.2);
  getGitAuthor := λ w, (record EvGetGitAuthor w, gitAuthor w);
  db_messages_findFirst := λ commitHash w,
    (record (EvFindMessage commitHash) w, Returned (find_message commitHash w));
  db_messages_findMany := λ chatId i w,
    (record (EvFindMessages chatId i) w, Returned (find_messages chatId i w));
  db_messages_delete := λ chatId i w,
    (delete_messages chatId i (record (EvDeleteMessages chatId i) w), Returned tt);
  logger_error := λ text error, add_log (LogError text error);
  logger_log := λ text, add_log (LogInfo text)
|}.
End WorldCollab.

(** ** Vocabulary of the properties *)

(** What a step on other paths leaves alone at [p]: a file and its
    content, the absence of a file, and every directory. *)
Definition keeps (p : Path) (t t' : FileTree) : Prop :=
  (∀ c, t !! p = Some (File c) → t' !! p = Some (File c)) ∧
  (is_file t p = false → is_file t' p = false) ∧
  (∀ q, is_dir t q = true → is_dir t' q = true).

Definition is_checkout (ev : Event) : bool :=
  match ev with EvCheckout _ _ _ => true | _ => false end.

(** The line written to the log when a message carries the commit hash. *)
Definition deleting_line (ver : string) (e : Message) (ms : list Message) : LogLine :=
  LogInfo ("Deleting " +:+
           num (Z.of_nat (length (filter (after (msg_chatId e) (msg_id e)) ms))) +:+
           " messages after commit " +:+ ver +:+ " from chat " +:+ num (msg_chatId e)).

(** Does the message of [e] mention [id]? *)
Definition mentions (e : JsError) (id : string) : bool :=
  match String.index 0 id (err_message e) with Some _ => true | None => false end.

Section RowEffects.
Context {G : Type} (L : GitLib G).

(** The three things a row of the matrix can do to the world. *)
Inductive RowEffect (dir : Path) (ver : string) (w w' : World G)
    : StatusRow → Prop :=
| RowRestored fp h wd st blob t1 :
    h = 1 → wd ≠ 1 →
    lib_readBlob L dir ver fp (repo w) = Returned blob →
    mkdir (path_dirname (path_join dir fp)) true (files w) = Returned t1 →
    write_file (path_join dir fp) blob t1 = Returned (files w') →
    trace w' = trace w ++ [EvReadBlob dir ver fp (Returned blob);
                           EvMkdir (path_dirname (path_join dir fp)) true;
                           EvWriteFile (path_join dir fp) blob] →
    RowEffect dir ver w w' (fp, h, wd, st)
| RowDeleted fp h wd st :
    h = 0 → wd ≠ 0 →
    exists_sync (files w) (path_join dir fp) = true →
    unlink (path_join dir fp) (files w) = Returned (files w') →
    trace w' = trace w ++ [EvUnlink (path_join dir fp); EvRemove dir fp] →
    RowEffect dir ver w w' (fp, h, wd, st)
| RowSkipped fp h wd st :
    w' = w →
    ¬ (h = 1 ∧ wd ≠ 1) →
    ¬ (h = 0 ∧ wd ≠ 0 ∧ exists_sync (files w) (path_join dir fp) = true) →
    RowEffect dir ver w w' (fp, h, wd, st).

(** A program is [quiet] when it only appends calls other than
    [git.checkout] to the trace, whatever its outcome. *)
Definition quiet {A} (m : M (World G) A) : Prop :=
  ∀ w, ∃ evs, trace (m w).1 = trace w ++ evs ∧
              Forall (λ ev, is_checkout ev = false) evs.

End RowEffects.

Section RevertFailures.
Context {S : Type} (c : Collab S).

(** How far the [try] block of a revert got: the matrix is computed;
    the tree is reconciled and staged; the commit is made. *)
Definition reached_matrix (dir : Path) (ver : string) (s s2 : S)
    (matrix : list StatusRow) : Prop :=
  ∃ s1, git_checkout c dir "main" true s = (s1, Returned tt) ∧
        git_statusMatrix c dir ver s1 = (s2, Returned matrix).

Definition reached_staged (dir : Path) (ver : string) (s s4 : S) : Prop :=
  ∃ s2 matrix s3,
    reached_matrix dir ver s s2 matrix ∧
    for_of matrix (revert_row c dir ver) s2 = (s3, Returned tt) ∧
    git_add c dir ["."] s3 = (s4, Returned tt).

Definition reached_commit (dir : Path) (ver : string) (s s6 : S) : Prop :=
  ∃ s4 s5 author commit,
    reached_staged dir ver s s4 ∧
    getGitAuthor c s4 = (s5, Returned author) ∧
    git_commit c dir ("Reverted all changes back to version " +:+ ver) author s5
      = (s6, Returned commit).

(** [RevertFailure dir ver s s' cause]: started in [s], some step of
    the [try] block throws [cause] and leaves the world in [s']. *)
Inductive RevertFailure (dir : Path) (ver : string) (s : S) : S → JsError → Prop :=
| FailedCheckout s' cause :
    git_checkout c dir "main" true s = (s', Raised cause) →
    RevertFailure dir ver s s' cause
| FailedStatusMatrix s1 s' cause :
    git_checkout c dir "main" true s = (s1, Returned tt) →
    git_statusMatrix c dir ver s1 = (s', Raised cause) →
    RevertFailure dir ver s s' cause
| FailedRow s2 matrix s' cause :
    reached_matrix dir ver s s2 matrix →
    for_of matrix (revert_row c dir ver) s2 = (s', Raised cause) →
    RevertFailure dir ver s s' cause
| FailedAdd s2 matrix s3 s' cause :
    reached_matrix dir ver s s2 matrix →
    for_of matrix (revert_row c dir ver) s2 = (s3, Returned tt) →
    git_add c dir ["."] s3 = (s', Raised cause) →
    RevertFailure dir ver s s' cause
| FailedAuthor s4 s' cause :
    reached_staged dir ver s s4 →
    getGitAuthor c s4 = (s', Raised cause) →
    RevertFailure dir ver s s' cause
| FailedCommit s4 s5 author s' cause :
    reached_staged dir ver s s4 →
    getGitAuthor c s4 = (s5, Returned author) →
    git_commit c dir ("Reverted all changes back to version " +:+ ver) author s5
      = (s', Raised cause) →
    RevertFailure dir ver s s' cause
| FailedPrune s6 s' cause :
    reached_commit dir ver s s6 →
    prune_messages c ver s6 = (s', Raised cause) →
    RevertFailure dir ver s s' cause.

End RevertFailures.

(** ** A small git library, used to run the handlers on examples

    One repository per directory: commit objects with their tree, the
    branches, [HEAD] (on a branch or detached) and the index. *)
Module SimpleGit.

Inductive HeadRef :=
| OnBranch (name : string)
| Detached (commit : string).

Record Commit := {
  c_tree : list (Path * Bytes);
  c_parent : option string;
  c_object : CommitObject
}.

Record Repo := {
  commits : list (string * Commit);
  branches : list (string * string);
  HEAD : HeadRef;
  index : list (Path * Bytes)
}.

Abbreviation Store := (list (Path * Repo)).

Definition assoc {K V} `{EqDecision K} (k : K) (l : list (K * V)) : option V :=
  snd <$> List.find (λ kv, bool_decide (kv.1 = k)) l.

Fixpoint assoc_set {K V} `{EqDecision K} (k : K) (v : V) (l : list (K * V))
    : list (K * V) :=
  match l with
  | [] => [(k, v)]
  | kv :: l' => if decide (kv.1 = k) then (k, v) :: l' else kv :: assoc_set k v l'
  end.

Definition not_found {A} (what : string) : Outcome A :=
  Raised (Error ("Could not find " +:+ what +:+ ".")).

Definition resolve_ref (r : Repo) (ref : string) : option (HeadRef * string) :=
  match assoc ref (branches r) with
  | Some c => Some (OnBranch ref, c)
  | None => match assoc ref (commits r) with
            | Some _ => Some (Detached ref, ref)
            | None => None
            end
  end.

Definition head_commit (r : Repo) : option string :=
  match HEAD r with
  | OnBranch b => assoc b (branches r)
  | Detached c => Some c
  end.

Fixpoint walk (fuel : nat) (cs : list (string * Commit)) (at_ : option string)
    : list ReadCommitResult :=
  match fuel, at_ with
  | S fuel', Some c =>
    match assoc c cs with
    | Some cm => {| rc_oid := c; rc_commit := c_object cm |} :: walk fuel' cs (c_parent cm)
    | None => []
    end
  | _, _ => []
  end.

Definition log (dir : Path) (depth : Z) (g : Store) : Outcome (list ReadCommitResult) :=
  match assoc dir g with
  | Some r => Returned (walk (Nat.min (Z.to_nat depth) (length (commits r)))
                             (commits r) (head_commit r))
  | None => not_found "HEAD"
  end.

Definition currentBranch (dir : Path) (fullname : bool) (g : Store)
    : Outcome (option string) :=
  match assoc dir g with
  | Some r => match HEAD r with
              | OnBranch b => Returned (Some (if fullname then "refs/heads/" +:+ b else b))
              | Detached _ => Returned None
              end
  | None => not_found "HEAD"
  end.

(** Writes one file of a tree, creating its directories. *)
Definition put_file (dir : Path) (t : Outcome FileTree) (entry : Path * Bytes)
    : Outcome FileTree :=
  match t with
  | Returned t =>
    match mkdir (path_dirname (dir ++ entry.1)) true t with
    | Returned t' => write_file (dir ++ entry.1) entry.2 t'
    | Raised e => Raised e
    end
  | Raised e => Raised e
  end.

Definition checkout (dir : Path) (ref : string) (force : bool) (st : Store * FileTree)
    : Store * FileTree * Outcome unit :=
  match assoc dir st.1 with
  | Some r =>
    match resolve_ref r ref with
    | Some (h, c) =>
      let tree := default [] (c_tree <$> assoc c (commits r)) in
      let cleared := foldr (λ entry t, delete (dir ++ entry.1) t) st.2 (index r) in
      match foldl (put_file dir) (Returned cleared) tree with
      | Returned t =>
        (assoc_set dir {| commits := commits r; branches := branches r;
                          HEAD := h; index := tree |} st.1, t, Returned tt)
      | Raised e => (st, Raised e)
      end
    | None => (st, not_found ref)
    end
  | None => (st, not_found "HEAD")
  end.

(** The files of the working tree of [dir], [.git] left out, by their
    path relative to [dir]. *)
Definition working_files (dir : Path) (t : FileTree) : list (Path * Bytes) :=
  omap (λ kv, match kv.2 with
              | File b =>
                if bool_decide (take (length dir) kv.1 = dir)
                   && negb (bool_decide (take 1 (drop (length dir) kv.1) = [".git"]))
                then Some (drop (length dir) kv.1, b) else None
              | Dir => None
              end) (map_to_list t).

Definition status_row (tree index work : list (Path * Bytes)) (p : Path) : StatusRow :=
  let h := assoc p tree in
  let w := assoc p work in
  let s := assoc p index in
  (p,
   match h with Some _ => 1 | None => 0 end,
   match w with
   | None => 0
   | Some b => if decide (h = Some b) then 1 else 2
   end,
   match s with
   | None => 0
   | Some b => if decide (h = Some b) then 1
               else if decide (w = Some b) then 2 else 3
   end).

Definition statusMatrix (dir : Path) (ref : string) (st : Store * FileTree)
    : Outcome (list StatusRow) :=
  match assoc dir st.1 with
  | Some r =>
    match resolve_ref r ref with
    | Some (_, c) =>
      let tree := default [] (c_tree <$> assoc c (commits r)) in
      let work := working_files dir st.2 in
      Returned (status_row tree (index r) work <$>
                remove_dups (tree.*1 ++ work.*1 ++ (index r).*1))
    | None => not_found ref
    end
  | None => not_found "HEAD"
  end.

Definition readBlob (dir : Path) (commit : string) (filepath : Path) (g : Store)
    : Outcome Bytes :=
  match assoc dir g with
  | Some r =>
    match assoc commit (commits r) with
    | Some cm => match assoc filepath (c_tree cm) with
                 | Some b => Returned b
                 | None => not_found "file or directory"
                 end
    | None => not_found commit
    end
  | None => not_found "HEAD"
  end.

Definition remove (dir filepath : Path) (g : Store) : Store * Outcome unit :=
  match assoc dir g with
  | Some r =>
    (assoc_set dir {| commits := commits r; branches := branches r; HEAD := HEAD r;
                      index := filter (λ kv, kv.1 ≠ filepath) (index r) |} g,
     Returned tt)
  | None => (g, not_found "HEAD")
  end.

(** [git.add] of the whole tree ([filepath] is ["."]): every file of
    the working tree is staged; entries of files that are gone stay. *)
Definition add (dir filepath : Path) (st : Store * FileTree) : Store * Outcome unit :=
  match assoc dir st.1 with
  | Some r =>
    let work := working_files dir st.2 in
    (assoc_set dir {| commits := commits r; branches := branches r; HEAD := HEAD r;
                      index := work ++ filter (λ kv, kv.1 ∉ work.*1) (index r) |} st.1,
     Returned tt)
  | None => (st.1, not_found "HEAD")
  end.

Definition commit (dir : Path) (message : string) (author : Author) (g : Store)
    : Store * Outcome string :=
  match assoc dir g with
  | Some r =>
    let n := Z.of_nat (length (commits r)) in
    let c := "commit-" +:+ pretty n in
    let cm := {| c_tree := index r; c_parent := head_commit r;
                 c_object := {| commit_message := message;
                                commit_author := {| ca_name := author_name author;
                                                    ca_email := author_email author;
                                                    ca_timestamp := n |} |} |} in
    (assoc_set dir
       {| commits := (c, cm) :: commits r;
          branches := match HEAD r with
                      | OnBranch b => assoc_set b c (branches r)
                      | Detached _ => branches r
                      end;
          HEAD := match HEAD r with
                  | OnBranch b => OnBranch b
                  | Detached _ => Detached c
                  end;
          index := index r |} g,
     Returned c)
  | None => (g, not_found "HEAD")
  end.

Definition lib : GitLib Store := {|
  lib_log := log;
  lib_currentBranch := currentBranch;
  lib_checkout := checkout;
  lib_statusMatrix := statusMatrix;
  lib_readBlob := readBlob;
  lib_remove := remove;
  lib_add := add;
  lib_commit := commit;
  lib_appPath := λ p, ["dyad-apps"; p]
|}.

(** The number of commit objects of all repositories. *)
Definition commit_count (g : Store) : nat :=
  sum_list ((λ kv, length (commits kv.2)) <$> g).

End SimpleGit.

(** ** Example worlds *)
Module Examples.
Import SimpleGit.

Definition bytes (s : string) : Bytes := String.list_byte_of_string s.

Definition demo : Path := ["dyad-apps"; "demo"].

Definition object (message : string) (time : Z) : CommitObject :=
  {| commit_message := message;
     commit_author := {| ca_name := "dyad"; ca_email := "git@dyad.sh";
                         ca_timestamp := time |} |}.

(** Two commits on [main]: [c1] has [a.txt] and [src/b.txt], [c2]
    changes [a.txt], drops [src/b.txt] and adds [c.txt]. *)
Definition demo_commits : list (string * Commit) :=
  [("c2", {| c_tree := [(["a.txt"], bytes "two"); (["c.txt"], bytes "see")];
             c_parent := Some "c1"; c_object := object "second" 200 |});
   ("c1", {| c_tree := [(["a.txt"], bytes "one"); (["src"; "b.txt"], bytes "bee")];
             c_parent := None; c_object := object "first" 100 |})].

Definition demo_repo (h : HeadRef) : Repo :=
  {| commits := demo_commits; branches := [("main", "c2")]; HEAD := h;
     index := [(["a.txt"], bytes "two"); (["c.txt"], bytes "see")] |}.

Definition demo_files : FileTree :=
  list_to_map [(["dyad-apps"], Dir); (demo, Dir); (demo ++ [".git"], Dir);
               (demo ++ ["a.txt"], File (bytes "two"));
               (demo ++ ["c.txt"], File (bytes "see"))].

(** A stream (chat 7) of five messages, the third made commit [c1];
    chat 8 has one later message. *)
Definition demo_messages : list Message :=
  [{| msg_id := 1; msg_chatId := 7; msg_commitHash := None |};
   {| msg_id := 2; msg_chatId := 7; msg_commitHash := None |};
   {| msg_id := 3; msg_chatId := 7; msg_commitHash := Some "c1" |};
   {| msg_id := 4; msg_chatId := 7; msg_commitHash := None |};
   {| msg_id := 5; msg_chatId := 7; msg_commitHash := Some "c2" |};
   {| msg_id := 6; msg_chatId := 8; msg_commitHash := None |}].

Definition demo_author : Author :=
  {| author_name := "dyad"; author_email := "git@dyad.sh" |}.

Definition demo_world (h : HeadRef) : World Store :=
  {| apps := [{| app_id := 1; app_path := "demo" |};
              {| app_id := 2; app_path := "plain" |}];
     messages := demo_messages;
     files := demo_files;
     repo := [(demo, demo_repo h)];
     gitAuthor := Returned demo_author;
     logs := [];
     trace := [] |}.

Definition on_main : World Store := demo_world (OnBranch "main").
Definition detached : World Store := demo_world (Detached "c1").

(** The author lookup fails. *)
Definition no_author : World Store :=
  {| apps := apps on_main; messages := messages on_main; files := files on_main;
     repo := repo on_main;
     gitAuthor := Raised (Error "Could not read the git author");
     logs := []; trace := [] |}.

(** No message carries the hash of [c1]. *)
Definition unreferenced : World Store :=
  set_messages (filter (λ m, msg_commitHash m ≠ Some "c1") demo_messages) on_main.

(** The revert of the example: back to [c1] on [main]. *)
Definition reverted : World Store :=
  (revert_version (world_collab lib) 1 "c1" on_main).1.

(** The example after [checkout-version] of [c1], while [main] is at
    [c2]. *)
Definition checked_out : World Store :=
  (checkout_version (world_collab lib) 1 "c1" on_main).1.

(** The collaborators of a world whose [apps] table cannot be read: the
    query rejects.  The other calls are those of the world. *)
Definition locked_registry : Collab (World Store) :=
  let C := world_collab lib in
  {| db_apps_findFirst := λ _, throw (Error "SQLITE_BUSY: database is locked");
     getDyadAppPath := getDyadAppPath C;
     fs_existsSync := fs_existsSync C;
     git_log := git_log C;
     git_currentBranch := git_currentBranch C;
     git_checkout := git_checkout C;
     git_statusMatrix := git_statusMatrix C;
     git_readBlob := git_readBlob C;
     fs_mkdir := fs_mkdir C;
     fs_writeFile := fs_writeFile C;
     fs_unlink := fs_unlink C;
     git_remove := git_remove C;
     git_add := git_add C;
     git_commit := git_commit C;
     getGitAuthor := getGitAuthor C;
     db_messages_findFirst := db_messages_findFirst C;
     db_messages_findMany := db_messages_findMany C;
     db_messages_delete := db_messages_delete C;
     logger_error := logger_error C;
     logger_log := logger_log C |}.

End Examples.

(** ** The per-project lock *)
Module Lock.

(** The two operations that run under the lock. *)
Inductive Operation :=
| Revert (previousVersionId : string)
| Checkout (versionId : string).

(** A call of [withLock(appId, body)]: [req_steps] counts the stretches
    of the body between two [await]s, each of which runs without
    interruption; a body that throws early simply has fewer of them. *)
Record Request := {
  req_appId : Z;
  req_op : Operation;
  req_steps : nat
}.

Inductive Phase :=
| Queued
| Running (done : nat)
| Finished.

(** The calls that have arrived, in arrival order, with their phase;
    the lock table, from project to the call that holds its lock; and
    the steps executed so far, as (call, step), oldest first. *)
Record Config := {
  phases : list Phase;
  held : gmap Z nat;
  log : list (nat * nat)
}.

Definition init : Config := {| phases := []; held := ∅; log := [] |}.

(** Modelled from the spec: [withLock] of [ipc/utils/lock_utils], which
    the handlers import.  Section 4.5: it "acquires a per-project
    exclusive lock (keyed by project identifier), runs [body], and
    releases the lock on every exit path"; "concurrent calls for the same
    project identifier queue in arrival order; calls for different
    projects run unimpeded in parallel".  A call arrives; it takes the
    lock of its project once the lock is free and no earlier call of the
    project still waits; it runs its body step by step; it gives the
    lock back. *)
Inductive step (reqs : list Request) : Config → Config → Prop :=
| Arrive cfg rq :
    reqs !! length (phases cfg) = Some rq →
    step reqs cfg {| phases := phases cfg ++ [Queued]; held := held cfg; log := log cfg |}
| Acquire cfg i rq :
    phases cfg !! i = Some Queued →
    reqs !! i = Some rq →
    held cfg !! req_appId rq = None →
    (∀ j rq', (j < i)%nat → reqs !! j = Some rq' → req_appId rq' = req_appId rq →
              phases cfg !! j ≠ Some Queued) →
    step reqs cfg {| phases := <[i:=Running 0]> (phases cfg);
                     held := <[req_appId rq:=i]> (held cfg);
                     log := log cfg |}
| Exec cfg i rq k :
    phases cfg !! i = Some (Running k) →
    reqs !! i = Some rq →
    (k < req_steps rq)%nat →
    step reqs cfg {| phases := <[i:=Running (S k)]> (phases cfg);
                     held := held cfg;
                     log := log cfg ++ [(i, k)] |}
| Release cfg i rq :
    phases cfg !! i = Some (Running (req_steps rq)) →
    reqs !! i = Some rq →
    step reqs cfg {| phases := <[i:=Finished]> (phases cfg);
                     held := delete (req_appId rq) (held cfg);
                     log := log cfg |}.

Definition reachable (reqs : list Request) (cfg : Config) : Prop :=
  rtc (step reqs) init cfg.

(** Call [i] is inside its body. *)
Definition in_body (reqs : list Request) (cfg : Config) (i : nat) (appId : Z) : Prop :=
  ∃ k rq, phases cfg !! i = Some (Running k) ∧ reqs !! i = Some rq ∧
          req_appId rq = appId.

(** What holds of every reachable configuration. *)
Record Inv (reqs : list Request) (cfg : Config) : Prop := {
  inv_held : ∀ p i, held cfg !! p = Some i ↔ in_body reqs cfg i p;
  inv_log : ∀ i m, (i, m) ∈ log cfg →
    phases cfg !! i = Some Finished ∨ ∃ k, phases cfg !! i = Some (Running k);
  inv_running : ∀ i k m, phases cfg !! i = Some (Running k) → (m < k)%nat →
    (i, m) ∈ log cfg;
  inv_finished : ∀ i rq m, phases cfg !! i = Some Finished → reqs !! i = Some rq →
    (m < req_steps rq)%nat → (i, m) ∈ log cfg;
  inv_order : ∀ a b i j m m' ri rj,
    log cfg !! a = Some (i, m) → log cfg !! b = Some (j, m') → (a < b)%nat →
    i ≠ j → reqs !! i = Some ri → reqs !! j = Some rj → req_appId ri = req_appId rj →
    ∀ n, (n < req_steps ri)%nat → ∃ a', (a' < b)%nat ∧ log cfg !! a' = Some (i, n)
}.

(** Two calls, one per project, of two steps each. *)
Definition two_projects : list Request :=
  [{| req_appId := 1; req_op := Revert "c1"; req_steps := 2 |};
   {| req_appId := 2; req_op := Checkout "c1"; req_steps := 2 |}].

(** Two calls on the same project. *)
Definition same_project : list Request :=
  [{| req_appId := 1; req_op := Revert "c1"; req_steps := 2 |};
   {| req_appId := 1; req_op := Checkout "c2"; req_steps := 1 |}].

End Lock.
(** ** Vocabulary of the further properties *)

(** The row asks for nothing: present in the target and unmodified, or
    in neither of the two cases of the loop. *)
Definition asks_nothing (row : StatusRow) : bool :=
  if row_head row =? 1 then row_workdir row =? 1
  else negb ((row_head row =? 0) && negb (row_workdir row =? 0)).

(** The calls made by the loop over the matrix. *)
Definition is_row_event (ev : Event) : bool :=
  match ev with
  | EvReadBlob _ _ _ _ | EvMkdir _ _ | EvWriteFile _ _ | EvUnlink _ | EvRemove _ _ => true
  | _ => false
  end.

(** Every call of [evs] is asked for by a row of [matrix]: a write puts,
    at the path of a row present in the target and not unmodified, the
    blob read for it; an unlink is for a row absent from the target; a
    removal from the index follows the unlink of the same path; a
    [mkdir] is recursive. *)
Definition justified (dir : Path) (ver : string) (matrix : list StatusRow)
    (evs : list Event) : Prop :=
  Forall (λ ev, is_row_event ev = true) evs ∧
  (∀ p data, EvWriteFile p data ∈ evs →
     ∃ fp h wd st, (fp, h, wd, st) ∈ matrix ∧ h = 1 ∧ wd ≠ 1 ∧
       p = path_join dir fp ∧ EvReadBlob dir ver fp (Returned data) ∈ evs) ∧
  (∀ p, EvUnlink p ∈ evs →
     ∃ fp h wd st, (fp, h, wd, st) ∈ matrix ∧ h = 0 ∧ wd ≠ 0 ∧ p = path_join dir fp) ∧
  (∀ d fp, EvRemove d fp ∈ evs → d = dir ∧ EvUnlink (path_join dir fp) ∈ evs) ∧
  (∀ p recursive, EvMkdir p recursive ∈ evs → recursive = true).

Section WorldVocabulary.
Context {G : Type}.

(** The tables and settings that the loop over the matrix never changes. *)
Definition same_tables (w w' : World G) : Prop :=
  apps w' = apps w ∧ messages w' = messages w ∧ logs w' = logs w ∧
  gitAuthor w' = gitAuthor w.

(** The calls made on the [messages] table by the pruning step. *)
Definition prune_trace (ver : string) (w : World G) : list Event :=
  EvFindMessage ver ::
  match find_message ver w with
  | Some e =>
    EvFindMessages (msg_chatId e) (msg_id e) ::
    if decide (0 < Z.of_nat (length (filter (after (msg_chatId e) (msg_id e))
                                            (messages w))))
    then [EvDeleteMessages (msg_chatId e) (msg_id e)] else []
  | None => []
  end.

End WorldVocabulary.

(** ** More example worlds *)
Module MoreExamples.
Import SimpleGit Examples.

(** The revert of the example back to [c2], the commit [main] is at:
    nothing differs, and the message that carries [c2] is the last of
    its chat. *)
Definition reverted_to_head : World Store :=
  (revert_version (world_collab lib) 1 "c2" on_main).1.

(** A matrix whose second row names a file that the target does not
    have: reading its blob throws. *)
Definition broken_matrix : list StatusRow :=
  [(["a.txt"], 1, 2, 2); (["ghost.txt"], 1, 0, 0); (["c.txt"], 0, 2, 2)].

End MoreExamples.

(** * Properties *)

Ltac unfold_monad :=
  unfold mbind, M_bind, mret, M_ret, gets, modify, throw, try_catch in *.

Section Generic.
Context {S : Type} (c : Collab S).


(** C4, as amended: [get-current-branch] throws exactly when the lookup
    of the project, awaited before the [try] block, rejects, and then
    with the error of the lookup.  Whenever the lookup resolves, in a
    state [s0], the handler returns a [BranchResult]: the failure
    ["App not found"] for an unknown project, the failure
    ["Not a git repository"] when there is no [.git], the failure
    ["Failed to get current branch: "] followed by the cause when
    [git.currentBranch] throws, and a success with the branch name when
    the library names a branch.  The three failure messages differ. *)
Theorem get_current_branch_raises_only_from_lookup (appId : Z) (s : S) :
  let result := (get_current_branch c appId s).2 in
  (∀ s0 e, db_apps_findFirst c appId s = (s0, Raised e) →
     get_current_branch c appId s = (s0, Raised e)) ∧
  (∀ s0 found, db_apps_findFirst c appId s = (s0, Returned found) →
     (∃ r, result = Returned r) ∧
     (found = None →
      get_current_branch c appId s = (s0, Returned (BranchFailure "App not found"))) ∧
     (∀ app, found = Some app →
        let appPath := getDyadAppPath c (app_path app) in
        (fs_existsSync c (path_join appPath [".git"]) s0 = false →
         get_current_branch c appId s
           = (s0, Returned (BranchFailure "Not a git repository"))) ∧
        (fs_existsSync c (path_join appPath [".git"]) s0 = true →
         ∀ s1,
           (∀ cause, git_currentBranch c appPath false s0 = (s1, Raised cause) →
            result = Returned (BranchFailure
                       ("Failed to get current branch: " +:+ err_message cause))) ∧
           (∀ name, git_currentBranch c appPath false s0 = (s1, Returned (Some name)) →
            name ≠ "" → result = Returned (BranchSuccess name))))) ∧
  (∀ cause,
     "App not found" ≠ "Not a git repository" ∧
     "App not found" ≠ "Failed to get current branch: " +:+ cause ∧
     "Not a git repository" ≠ "Failed to get current branch: " +:+ cause).
Proof.
  intros result. subst result. unfold get_current_branch. unfold_monad.
  split; [|split; [|by intros]].
  { intros s0 e ->. reflexivity. }
  intros s0 found ->. destruct found as [app|].
  - destruct (fs_existsSync c _ s0) eqn:Hgit; simpl.
    + destruct (git_currentBranch c _ false s0) as [s1 [b|cause]] eqn:Hb; simpl.
      * split; [eauto|]. split; [discriminate|].
        intros ? [= <-]. simpl. rewrite Hgit. split; [discriminate|].
        intros _ s2. rewrite Hb. split; [discriminate|].
        intros name [= _ ->] Hne. unfold or_else. by rewrite decide_False.
      * split; [eauto|]. split; [discriminate|].
        intros ? [= <-]. simpl. rewrite Hgit. split; [discriminate|].
        intros _ s2. rewrite Hb. split; [|discriminate].
        by intros ? [= <- <-].
    + split; [eauto|]. split; [discriminate|].
      intros ? [= <-]. simpl. rewrite Hgit. split; [done|discriminate].
  - split; [eauto|]. split; [done|]. discriminate.
Qed.

(** C10: when [git.currentBranch] yields no name (a detached [HEAD]),
    [get-current-branch] returns a success whose branch is the literal
    ["<no-branch>"].  [s0] is the state in which the lookup of the
    project resolved. *)
Theorem detached_head_is_no_branch (appId : Z) (app : App) (s s0 s1 : S) :
  db_apps_findFirst c appId s = (s0, Returned (Some app)) →
  fs_existsSync c (path_join (getDyadAppPath c (app_path app)) [".git"]) s0 = true →
  git_currentBranch c (getDyadAppPath c (app_path app)) false s0 = (s1, Returned None) →
  get_current_branch c appId s = (s1, Returned (BranchSuccess "<no-branch>")).
Proof.
  intros Happ Hgit Hb. unfold get_current_branch. unfold_monad.
  rewrite Happ, Hgit. simpl. by rewrite Hb.
Qed.

End Generic.
(** ** The file tree *)

Lemma mkdir_from_spec (rest : list string) : ∀ (pre : Path) (t t' : FileTree),
  mkdir_from pre rest t = Returned t' →
  (∀ p x, t !! p = Some x → t' !! p = Some x) ∧
  (∀ p c, t' !! p = Some (File c) → t !! p = Some (File c)) ∧
  (is_dir t pre = true → is_dir t' (pre ++ rest) = true).
Proof.
  induction rest as [|seg rest IH]; intros pre t t' H; simpl in H.
  - injection H as <-. rewrite app_nil_r. done.
  - assert (Hd : ∀ u : FileTree, u !! (pre ++ [seg]) = Some Dir →
                  is_dir u (pre ++ [seg]) = true).
    { intros u Hu. unfold is_dir. rewrite Hu. by destruct (pre ++ [seg]). }
    replace (pre ++ seg :: rest) with ((pre ++ [seg]) ++ rest)
      by (by rewrite <- app_assoc).
    destruct (t !! (pre ++ [seg])) as [[b|]|] eqn:Hp; [discriminate| |].
    + destruct (IH _ _ _ H) as (H1 & H2 & H3). auto.
    + destruct (IH _ _ _ H) as (H1 & H2 & H3). split; [|split].
      * intros p x Hx. apply H1. rewrite lookup_insert_ne; [done|congruence].
      * intros p b Hb. apply H2 in Hb.
        destruct (decide (pre ++ [seg] = p)) as [<-|Hne].
        -- by rewrite lookup_insert_eq in Hb.
        -- by rewrite lookup_insert_ne in Hb.
      * intros _. apply H3, Hd, lookup_insert_eq.
Qed.

Lemma mkdir_recursive_spec (p : Path) (t t' : FileTree) :
  mkdir p true t = Returned t' →
  (∀ q x, t !! q = Some x → t' !! q = Some x) ∧
  (∀ q c, t' !! q = Some (File c) → t !! q = Some (File c)) ∧
  is_dir t' p = true.
Proof.
  intros H. destruct (mkdir_from_spec _ _ _ _ H) as (H1 & H2 & H3). auto.
Qed.

Lemma write_file_spec (p : Path) (data : Bytes) (t t' : FileTree) :
  write_file p data t = Returned t' →
  t' = <[p:=File data]> t ∧ is_dir t p = false ∧ is_dir t (path_dirname p) = true.
Proof.
  unfold write_file. destruct (is_dir t p); [discriminate|].
  destruct (is_dir t (path_dirname p)); [|discriminate]. by intros [= <-].
Qed.

Lemma unlink_spec (p : Path) (t t' : FileTree) :
  unlink p t = Returned t' → t' = delete p t ∧ is_file t p = true.
Proof.
  unfold unlink. destruct (is_file t p); [by intros [= <-]|].
  by destruct (is_dir t p).
Qed.

Lemma is_dir_Some (t : FileTree) (p : Path) :
  is_dir t p = true ↔ p = [] ∨ t !! p = Some Dir.
Proof.
  unfold is_dir. destruct p as [|a p]; [naive_solver|].
  destruct (t !! (a :: p)) as [[|]|]; naive_solver.
Qed.

Lemma is_file_Some (t : FileTree) (p : Path) :
  is_file t p = true ↔ ∃ c, t !! p = Some (File c).
Proof. unfold is_file. destruct (t !! p) as [[|]|]; naive_solver. Qed.

Lemma is_file_false (t : FileTree) (p : Path) :
  is_file t p = false ↔ ∀ c, t !! p ≠ Some (File c).
Proof. unfold is_file. destruct (t !! p) as [[|]|]; naive_solver. Qed.


Lemma keeps_refl p t : keeps p t t.
Proof. by repeat split. Qed.

Lemma keeps_trans p t1 t2 t3 : keeps p t1 t2 → keeps p t2 t3 → keeps p t1 t3.
Proof. intros (A1 & A2 & A3) (B1 & B2 & B3). repeat split; auto. Qed.

Lemma mkdir_keeps p q t t' : mkdir q true t = Returned t' → keeps p t t'.
Proof.
  intros H. destruct (mkdir_recursive_spec _ _ _ H) as (H1 & H2 & _).
  split; [auto|split].
  - rewrite !is_file_false. intros Hn c Hc. by apply H2, Hn in Hc.
  - intros r. rewrite !is_dir_Some. naive_solver.
Qed.

Lemma write_file_keeps p q data t t' :
  p ≠ q → write_file q data t = Returned t' → keeps p t t'.
Proof.
  intros Hne H. destruct (write_file_spec _ _ _ _ H) as (-> & Hq & _).
  split; [|split].
  - intros c Hc. by rewrite lookup_insert_ne.
  - unfold is_file. by rewrite lookup_insert_ne.
  - intros r. rewrite !is_dir_Some. intros [->|Hr]; [by left|right].
    rewrite lookup_insert_ne; [done|]. intros <-.
    assert (is_dir t q = true) by (apply is_dir_Some; by right). congruence.
Qed.

Lemma unlink_keeps p q t t' : p ≠ q → unlink q t = Returned t' → keeps p t t'.
Proof.
  intros Hne H. destruct (unlink_spec _ _ _ H) as (-> & Hq).
  split; [|split].
  - intros c Hc. by rewrite lookup_delete_ne.
  - unfold is_file. by rewrite lookup_delete_ne.
  - intros r. rewrite !is_dir_Some. intros [->|Hr]; [by left|right].
    rewrite lookup_delete_ne; [done|]. intros <-.
    apply is_file_Some in Hq as [c Hc]. congruence.
Qed.

(** ** One row of the status matrix *)

Local Arguments mkdir : simpl never.
Local Arguments write_file : simpl never.
Local Arguments unlink : simpl never.
Local Arguments exists_sync : simpl never.
Local Arguments path_join : simpl never.
Local Arguments path_dirname : simpl never.

Section WorldFacts.
Context {G : Type} (L : GitLib G).
Local Abbreviation C := (world_collab L).


Lemma revert_row_effect dir ver row w w' :
  revert_row C dir ver row w = (w', Returned tt) →
  RowEffect L dir ver w w' row ∧ messages w' = messages w ∧ logs w' = logs w.
Proof.
  destruct row as [[[fp h] wd] st]. unfold revert_row. unfold_monad. simpl.
  destruct (Z.eqb_spec h 1) as [->|Hh1].
  - destruct (Z.eqb_spec wd 1) as [->|Hwd]; simpl.
    + intros [= <-]. split; [|done]. apply RowSkipped; [done|tauto|lia].
    + destruct (lib_readBlob L dir ver fp (repo w)) as [blob|e] eqn:Hblob;
        [|discriminate].
      unfold fs_call. simpl.
      destruct (mkdir _ true (files w)) as [t1|e] eqn:Hmk; [|discriminate].
      simpl. destruct (write_file _ blob t1) as [t2|e] eqn:Hwr; [|discriminate].
      intros [= <-]. simpl. split; [|done].
      eapply RowRestored; eauto. simpl. by rewrite <- !app_assoc.
  - destruct (Z.eqb_spec h 0) as [->|Hh0]; simpl.
    + destruct (Z.eqb_spec wd 0) as [->|Hwd]; simpl.
      * intros [= <-]. split; [|done]. apply RowSkipped; [done|lia|tauto].
      * destruct (exists_sync (files w) (path_join dir fp)) eqn:Hex.
        -- unfold fs_call. simpl.
           destruct (unlink _ (files w)) as [t1|e] eqn:Hun; [|discriminate].
           simpl. destruct (lib_remove L dir fp (repo w)) as [g [[]|e]] eqn:Hrm;
             simpl; [|discriminate].
           intros [= <-]. simpl. split; [|done].
           eapply RowDeleted; eauto. simpl. by rewrite <- !app_assoc.
        -- intros [= <-]. split; [|done]. apply RowSkipped; [done|lia|].
           intros (_ & _ & ?). congruence.
    + intros [= <-]. split; [|done]. apply RowSkipped; [done|tauto|tauto].
Qed.

(** A row leaves the other paths as they are. *)
Lemma row_keeps dir ver w w' row p :
  RowEffect L dir ver w w' row →
  p ≠ path_join dir (row_filepath row) →
  keeps p (files w) (files w').
Proof.
  intros [fp h wd st blob t1 _ _ _ Hmk Hwr _|fp h wd st _ _ _ Hun _|fp h wd st -> _ _] Hne;
    simpl in Hne.
  - eapply keeps_trans; [eapply mkdir_keeps, Hmk|eapply write_file_keeps, Hwr; done].
  - eapply unlink_keeps, Hun. done.
  - apply keeps_refl.
Qed.

(** Directories survive every row. *)
Lemma row_keeps_dirs dir ver w w' row q :
  RowEffect L dir ver w w' row →
  is_dir (files w) q = true → is_dir (files w') q = true.
Proof.
  intros [fp h wd st blob t1 _ _ _ Hmk Hwr _|fp h wd st _ _ _ Hun _|fp h wd st -> _ _] Hq;
    [|(*unlink*)|done].
  - destruct (mkdir_keeps q _ _ _ Hmk) as (_ & _ & Hd). apply Hd in Hq.
    destruct (write_file_spec _ _ _ _ Hwr) as (-> & Hnd & _).
    apply is_dir_Some in Hq as [->|Hq]; [done|].
    apply is_dir_Some. right. rewrite lookup_insert_ne; [done|]. intros Heq.
    assert (is_dir t1 q = true) by (apply is_dir_Some; by right). congruence.
  - destruct (unlink_spec _ _ _ Hun) as (-> & Hf).
    apply is_dir_Some in Hq as [->|Hq]; [done|].
    apply is_dir_Some. right. rewrite lookup_delete_ne; [done|]. intros Heq.
    apply is_file_Some in Hf as [c Hc]. congruence.
Qed.

Lemma row_trace dir ver w w' row :
  RowEffect L dir ver w w' row → ∃ evs, trace w' = trace w ++ evs.
Proof.
  intros [fp h wd st blob t1 _ _ _ _ _ ->|fp h wd st _ _ _ _ ->|fp h wd st -> _ _]; eauto.
  exists []. by rewrite app_nil_r.
Qed.


(** ** The loop over the status matrix *)

Lemma for_of_cons {A} (f : A → M (World G) unit) x l w w' :
  for_of (x :: l) f w = (w', Returned tt) →
  ∃ w1, f x w = (w1, Returned tt) ∧ for_of l f w1 = (w', Returned tt).
Proof.
  simpl. unfold_monad. destruct (f x w) as [w1 [[]|e]]; [eauto|discriminate].
Qed.

Lemma loop_frame dir ver matrix : ∀ w w',
  for_of matrix (revert_row C dir ver) w = (w', Returned tt) →
  messages w' = messages w ∧ logs w' = logs w ∧
  (∃ evs, trace w' = trace w ++ evs) ∧
  (∀ q, is_dir (files w) q = true → is_dir (files w') q = true) ∧
  (∀ fp, fp ∉ row_filepath <$> matrix →
         keeps (path_join dir fp) (files w) (files w')).
Proof.
  induction matrix as [|row rest IH]; intros w w' H.
  - injection H as <-. repeat split; auto using keeps_refl.
    exists []. by rewrite app_nil_r.
  - apply for_of_cons in H as (w1 & Hrow & Hrest).
    apply revert_row_effect in Hrow as (Heff & Hm & Hl).
    apply IH in Hrest as (Hm' & Hl' & [evs2 Ht2] & Hd & Hk).
    destruct (row_trace _ _ _ _ _ Heff) as [evs1 Ht1].
    split; [congruence|]. split; [congruence|]. split; [|split].
    + exists (evs1 ++ evs2). by rewrite Ht2, Ht1, app_assoc.
    + eauto using row_keeps_dirs.
    + intros fp Hfp. rewrite fmap_cons, not_elem_of_cons in Hfp.
      destruct Hfp as [Hne Hfp]. eapply keeps_trans; [|by apply Hk].
      eapply row_keeps; [done|]. unfold path_join. intros ?%app_inv_head. done.
Qed.

Lemma loop_spec dir ver matrix : ∀ w w',
  for_of matrix (revert_row C dir ver) w = (w', Returned tt) →
  NoDup (row_filepath <$> matrix) →
  ∃ evs, trace w' = trace w ++ evs ∧
  ∀ fp h wd st, (fp, h, wd, st) ∈ matrix →
    (h = 1 → wd ≠ 1 →
     ∃ blob, EvReadBlob dir ver fp (Returned blob) ∈ evs ∧
             files w' !! path_join dir fp = Some (File blob) ∧
             is_dir (files w') (path_dirname (path_join dir fp)) = true) ∧
    (h = 0 → wd ≠ 0 → exists_sync (files w) (path_join dir fp) = true →
     is_file (files w') (path_join dir fp) = false ∧
     EvUnlink (path_join dir fp) ∈ evs ∧ EvRemove dir fp ∈ evs).
Proof.
  induction matrix as [|row rest IH]; intros w w' H Hnd.
  - exists []. split; [injection H as <-; by rewrite app_nil_r|].
    intros ???? ?%elem_of_nil. done.
  - apply for_of_cons in H as (w1 & Hrow & Hrest).
    apply revert_row_effect in Hrow as (Heff & _).
    rewrite fmap_cons in Hnd. apply NoDup_cons in Hnd as [Hfresh Hnd].
    destruct (loop_frame _ _ _ _ _ Hrest) as (_ & _ & _ & Hdirs & Hkeep).
    destruct (IH _ _ Hrest Hnd) as (evs2 & Ht2 & Hrows).
    destruct (row_trace _ _ _ _ _ Heff) as [evs1 Ht1].
    exists (evs1 ++ evs2). split; [by rewrite Ht2, Ht1, app_assoc|].
    intros fp h wd st [Heq|Hin]%elem_of_cons.
    + (* the row just processed: later rows are about other paths *)
      subst row. simpl in Hfresh.
      destruct (Hkeep fp Hfresh) as (Kfile & Knofile & _).
      inversion Heff as [? ? ? ? blob t1 Hh Hwd Hblob Hmk Hwr Htr
                        |? ? ? ? Hh Hwd Hex Hun Htr|? ? ? ? Hw Hn1 Hn2]; subst.
      * split; [intros _ _|intros; lia].
        destruct (write_file_spec _ _ _ _ Hwr) as (Hf & Hnodir & Hparent).
        exists blob. split; [|split].
        -- rewrite Htr in Ht1. apply app_inv_head in Ht1 as <-.
           apply elem_of_app. left. apply elem_of_cons. by left.
        -- apply Kfile. rewrite Hf. apply lookup_insert_eq.
        -- apply Hdirs. apply is_dir_Some.
           apply is_dir_Some in Hparent as [Hp|Hp]; [by left|right].
           rewrite Hf. rewrite lookup_insert_ne; [done|]. intros Heq.
           assert (is_dir t1 (path_join dir fp) = true)
             by (apply is_dir_Some; right; congruence).
           congruence.
      * split; [intros; lia|intros _ _ _].
        destruct (unlink_spec _ _ _ Hun) as (Hf & _).
        rewrite Htr in Ht1. apply app_inv_head in Ht1 as <-.
        split; [|split].
        -- apply Knofile. unfold is_file. by rewrite Hf, lookup_delete_eq.
        -- apply elem_of_app. left. apply elem_of_cons. by left.
        -- apply elem_of_app. left. apply elem_of_cons. right.
           apply elem_of_cons. by left.
      * split; [intros ? ?; tauto|intros ? ? ?; tauto].
    + (* a later row: the row just processed left its path alone *)
      assert (Hne : fp ≠ row_filepath row).
      { intros ->. apply Hfresh. apply list_elem_of_fmap.
        by exists (row_filepath row, h, wd, st). }
      assert (Hk : keeps (path_join dir fp) (files w) (files w1)).
      { eapply row_keeps; [done|]. unfold path_join. by intros ?%app_inv_head. }
      destruct Hk as (Kfile & _ & Kdir).
      destruct (Hrows fp h wd st Hin) as [Hres Hdel]. split.
      * intros Hh Hwd. destruct (Hres Hh Hwd) as (blob & Hev & Hrest').
        exists blob. split; [|done]. apply elem_of_app. by right.
      * intros Hh Hwd Hex. destruct Hdel as (Hnf & Hu & Hr); [done..| |].
        -- unfold exists_sync in *. apply orb_true_iff in Hex as [Hd|Hf].
           ++ by rewrite Kdir.
           ++ apply is_file_Some in Hf as [b Hb]. apply Kfile in Hb.
              unfold is_file. rewrite Hb. apply orb_true_r.
        -- split; [done|]. split; apply elem_of_app; by right.
Qed.

End WorldFacts.

(** ** The whole of [revert-version] *)

Section RevertFacts.
Context {G : Type} (L : GitLib G).
Local Abbreviation C := (world_collab L).

(** The steps of a revert that returns. *)
Lemma revert_version_returns appId ver w wf r :
  revert_version C appId ver w = (wf, Returned r) →
  ∃ app w1 matrix w3 w4 author w6 c,
    find_app appId w = Some app ∧
    git_checkout C (lib_appPath L (app_path app)) "main" true w = (w1, Returned tt) ∧
    lib_statusMatrix L (lib_appPath L (app_path app)) ver (repo w1, files w1)
      = Returned matrix ∧
    for_of matrix (revert_row C (lib_appPath L (app_path app)) ver)
      (record (EvStatusMatrix (lib_appPath L (app_path app)) ver) w1)
      = (w3, Returned tt) ∧
    git_add C (lib_appPath L (app_path app)) ["."] w3 = (w4, Returned tt) ∧
    gitAuthor w4 = Returned author ∧
    git_commit C (lib_appPath L (app_path app))
      ("Reverted all changes back to version " +:+ ver) author
      (record EvGetGitAuthor w4) = (w6, Returned c) ∧
    prune_messages C ver w6 = (wf, Returned tt) ∧
    r = {| success := true |}.
Proof.
  unfold revert_version, revert_try. unfold_monad.
  change (db_apps_findFirst C appId w) with (w, Returned (find_app appId w)).
  destruct (find_app appId w) as [app|]; [|discriminate].
  change (getDyadAppPath C (app_path app)) with (lib_appPath L (app_path app)).
  set (dir := lib_appPath L (app_path app)).
  destruct (git_checkout C dir "main" true w) as [w1 [[]|e]] eqn:H1; [|discriminate].
  change (git_statusMatrix C dir ver w1)
    with (record (EvStatusMatrix dir ver) w1, lib_statusMatrix L dir ver (repo w1, files w1)).
  destruct (lib_statusMatrix L dir ver (repo w1, files w1)) as [matrix|e] eqn:H2;
    [|discriminate].
  destruct (for_of matrix _ _) as [w3 [[]|e]] eqn:H3; [|discriminate].
  destruct (git_add C dir ["."] w3) as [w4 [[]|e]] eqn:H4; [|discriminate].
  change (getGitAuthor C w4) with (record EvGetGitAuthor w4, gitAuthor w4).
  destruct (gitAuthor w4) as [author|e] eqn:H5; [|discriminate].
  destruct (git_commit C dir _ author _) as [w6 [c|e]] eqn:H6; [|discriminate].
  destruct (prune_messages C ver w6) as [w7 [[]|e]] eqn:H7; [|discriminate].
  intros [= <- <-]. by exists app, w1, matrix, w3, w4, author, w6, c.
Qed.

(** ** The timeline *)

Lemma filter_none {A} (P : A → Prop) `{∀ x, Decision (P x)} (l : list A) :
  length (filter P l) = 0%nat → filter (λ x, ¬ P x) l = l.
Proof.
  induction l as [|x l IH]; [done|]. rewrite !filter_cons.
  destruct (decide (P x)); [done|]. intros Hl.
  destruct (decide (¬ P x)); [|done]. by rewrite IH.
Qed.

Lemma length_filter_split {A} (P : A → Prop) `{∀ x, Decision (P x)} (l : list A) :
  (length (filter P l) + length (filter (λ x, ¬ P x) l))%nat = length l.
Proof.
  induction l as [|x l IH]; [done|]. rewrite !filter_cons.
  destruct (decide (P x)), (decide (¬ P x)); simpl; try tauto; lia.
Qed.

Lemma length_find_messages chatId i (w : World G) :
  length (find_messages chatId i w) = length (filter (after chatId i) (messages w)).
Proof. unfold find_messages. by rewrite merge_sort_Permutation. Qed.



Lemma prune_messages_effect ver (w : World G) :
  ∃ w', prune_messages C ver w = (w', Returned tt) ∧
    files w' = files w ∧ repo w' = repo w ∧
    (∃ evs, trace w' = trace w ++ evs ∧ Forall (λ ev, is_checkout ev = false) evs ∧
            (find_message ver w = None → evs = [EvFindMessage ver])) ∧
    match find_message ver w with
    | Some e =>
      messages w' = filter (λ m, ¬ after (msg_chatId e) (msg_id e) m) (messages w) ∧
      logs w' = logs w ++ [deleting_line ver e (messages w)]
    | None => messages w' = messages w ∧ logs w' = logs w
    end.
Proof.
  unfold prune_messages. unfold_monad. simpl.
  destruct (find_message ver w) as [e|] eqn:He.
  - change (find_messages (msg_chatId e) (msg_id e) (record (EvFindMessage ver) w))
      with (find_messages (msg_chatId e) (msg_id e) w).
    rewrite length_find_messages. case_decide as Hn.
    + eexists. split; [done|]. simpl. repeat split.
      eexists. rewrite <- !app_assoc. split; [done|]. split; [|done].
      by repeat constructor.
    + eexists. split; [done|]. simpl. repeat split.
      * eexists. rewrite <- !app_assoc. split; [done|]. split; [|done].
        by repeat constructor.
      * symmetry. apply filter_none. lia.
  - eexists. split; [done|]. simpl. repeat split.
    eexists. split; [done|]. split; [by repeat constructor|done].
Qed.

End RevertFacts.

Section Claims.
Context {G : Type} (L : GitLib G).
Local Abbreviation C := (world_collab L).

Lemma git_checkout_files_trace dir ref force (w w1 : World G) o :
  git_checkout C dir ref force w = (w1, o) →
  trace w1 = trace w ++ [EvCheckout dir ref force] ∧
  messages w1 = messages w ∧ logs w1 = logs w.
Proof. by intros [= <- _]. Qed.

Lemma git_add_frame dir fp (w w' : World G) o :
  git_add C dir fp w = (w', o) →
  files w' = files w ∧ messages w' = messages w ∧ logs w' = logs w ∧
  trace w' = trace w ++ [EvAdd dir fp].
Proof. by intros [= <- _]. Qed.

Lemma git_commit_frame dir msg author (w w' : World G) o :
  git_commit C dir msg author (record EvGetGitAuthor w) = (w', o) →
  files w' = files w ∧ messages w' = messages w ∧ logs w' = logs w ∧
  trace w' = trace w ++ [EvGetGitAuthor; EvCommit dir msg author].
Proof. intros [= <- _]. simpl. by rewrite <- !app_assoc. Qed.

Lemma revert_tail_frame dir ver msg author (w3 w4 w6 wf : World G) c :
  git_add C dir ["."] w3 = (w4, Returned tt) →
  git_commit C dir msg author (record EvGetGitAuthor w4) = (w6, Returned c) →
  prune_messages C ver w6 = (wf, Returned tt) →
  files wf = files w3 ∧ messages w6 = messages w3 ∧ logs w6 = logs w3 ∧
  ∃ evs, trace wf = trace w3 ++ [EvAdd dir ["."]; EvGetGitAuthor; EvCommit dir msg author]
                      ++ evs ∧
         Forall (λ ev, is_checkout ev = false) evs.
Proof.
  intros (Hf4 & Hm4 & Hl4 & Ht4)%git_add_frame (Hf6 & Hm6 & Hl6 & Ht6)%git_commit_frame Hp.
  destruct (prune_messages_effect L ver w6) as (w' & Hp' & Hf & _ & (evs & Ht & Hq & _) & _).
  rewrite Hp in Hp'. injection Hp' as <-.
  split; [congruence|]. split; [congruence|]. split; [congruence|].
  exists evs. split; [|done]. rewrite Ht, Ht6, Ht4. by rewrite <- !app_assoc.
Qed.

(** C1: a revert that returns has checked out [main], taken the status
    matrix against the target and, provided the matrix lists each path
    once, for every row: a path present in the target ([headStatus] 1)
    whose [workdirStatus] is not 1 holds, at the end, exactly the blob
    that [git.readBlob] returned for it at the target, and its parent
    directory exists; a path absent from the target ([headStatus] 0) with
    a [workdirStatus] other than 0 that was on disk when the matrix was
    taken is no longer a file, and was unlinked and removed from the
    index. *)
Theorem revert_restores_and_deletes (w wf : World G) (appId : Z) (ver : string)
    (r : SuccessResult) :
  revert_version C appId ver w = (wf, Returned r) →
  ∃ app w1 matrix evs,
    find_app appId w = Some app ∧
    git_checkout C (lib_appPath L (app_path app)) "main" true w = (w1, Returned tt) ∧
    lib_statusMatrix L (lib_appPath L (app_path app)) ver (repo w1, files w1)
      = Returned matrix ∧
    trace wf = trace w1 ++ evs ∧
    (NoDup (row_filepath <$> matrix) →
     ∀ filepath headStatus workdirStatus stageStatus,
       (filepath, headStatus, workdirStatus, stageStatus) ∈ matrix →
       let dir := lib_appPath L (app_path app) in
       let fullPath := path_join dir filepath in
       (headStatus = 1 → workdirStatus ≠ 1 →
        ∃ blob,
          EvReadBlob dir ver filepath (Returned blob) ∈ evs ∧
          files wf !! fullPath = Some (File blob) ∧
          is_dir (files wf) (path_dirname fullPath) = true) ∧
       (headStatus = 0 → workdirStatus ≠ 0 →
        exists_sync (files w1) fullPath = true →
        is_file (files wf) fullPath = false ∧
        EvUnlink fullPath ∈ evs ∧ EvRemove dir filepath ∈ evs)).
Proof.
  intros H. apply revert_version_returns in H
    as (app & w1 & matrix & w3 & w4 & author & w6 & c & Happ & H1 & H2 & H3 & H4 & H5 & H6 & H7 & _).
  destruct (revert_tail_frame _ _ _ _ _ _ _ _ _ H4 H6 H7) as (Hf & _ & _ & evs2 & Ht2 & _).
  destruct (loop_frame _ _ _ _ _ _ H3) as (_ & _ & [evs1 Ht1] & _).
  eexists app, w1, matrix, (EvStatusMatrix (lib_appPath L (app_path app)) ver :: evs1 ++ _).
  split; [done|]. split; [done|]. split; [done|]. split.
  { rewrite Ht2, Ht1. simpl. rewrite <- !app_assoc. done. }
  intros Hnd fp h wd st Hin dir fullPath.
  destruct (loop_spec _ _ _ _ _ _ H3 Hnd) as (evs1' & Ht1' & Hrows).
  rewrite Ht1 in Ht1'. apply app_inv_head in Ht1' as <-.
  destruct (Hrows fp h wd st Hin) as [Hres Hdel]. rewrite Hf. split.
  - intros Hh Hwd. destruct (Hres Hh Hwd) as (blob & Hev & Hrest).
    exists blob. split; [|done]. apply elem_of_cons. right. apply elem_of_app. by left.
  - intros Hh Hwd Hex. destruct (Hdel Hh Hwd Hex) as (Hnf & Hu & Hr).
    split; [done|]. split; apply elem_of_cons; right; apply elem_of_app; by left.
Qed.


(** C2: after a revert that returns, when exactly one message carries
    the target hash, the [messages] table is the old one without the
    messages of the same chat with a greater id: that message and the
    earlier ones stay, and a message is gone exactly when it is in that
    chat with a greater id.  When no message carries the hash the table
    is unchanged, and the pruning step never throws. *)
Theorem revert_prunes_later_entries (w wf : World G) (appId : Z) (ver : string)
    (r : SuccessResult) :
  revert_version C appId ver w = (wf, Returned r) →
  (∀ e, e ∈ messages w → msg_commitHash e = Some ver →
     (∀ e', e' ∈ messages w → msg_commitHash e' = Some ver → e' = e) →
     messages wf = filter (λ m, ¬ after (msg_chatId e) (msg_id e) m) (messages w) ∧
     e ∈ messages wf ∧
     (∀ m, m ∈ messages w → msg_chatId m = msg_chatId e → msg_id m ≤ msg_id e →
           m ∈ messages wf) ∧
     (∀ m, m ∈ messages w →
           m ∉ messages wf ↔ msg_chatId m = msg_chatId e ∧ msg_id e < msg_id m)) ∧
  ((∀ m, m ∈ messages w → msg_commitHash m ≠ Some ver) → messages wf = messages w) ∧
  (∀ w0 : World G, (prune_messages C ver w0).2 = Returned tt).
Proof.
  intros H. apply revert_version_returns in H
    as (app & w1 & matrix & w3 & w4 & author & w6 & c & Happ & H1 & H2 & H3 & H4 & H5 & H6 & H7 & _).
  destruct (revert_tail_frame _ _ _ _ _ _ _ _ _ H4 H6 H7) as (_ & Hm6 & _).
  destruct (loop_frame _ _ _ _ _ _ H3) as (Hm3 & _).
  apply git_checkout_files_trace in H1 as (_ & Hm1 & _).
  assert (Hm : messages w6 = messages w) by (rewrite Hm6, Hm3; simpl; done).
  destruct (prune_messages_effect L ver w6) as (w' & Hp & _ & _ & _ & Hcase).
  rewrite H7 in Hp. injection Hp as <-.
  unfold find_message in Hcase. rewrite Hm in Hcase.
  split; [|split].
  - intros e He Hhash Huniq.
    destruct (List.find _ (messages w)) as [e'|] eqn:Hfind.
    + apply find_some in Hfind as [Hin Hb]. apply bool_decide_eq_true in Hb.
      apply list_elem_of_In in Hin. rewrite (Huniq e' Hin Hb) in Hcase.
      destruct Hcase as [Hms _]. rewrite Hms. split; [done|].
      assert (Hmem : ∀ m, m ∈ messages w →
                m ∉ filter (λ m, ¬ after (msg_chatId e) (msg_id e) m) (messages w)
                ↔ msg_chatId m = msg_chatId e ∧ msg_id e < msg_id m).
      { intros m Hm'. rewrite list_elem_of_filter. unfold after.
        split; [|tauto]. intros Hn.
        destruct (decide (msg_chatId m = msg_chatId e ∧ msg_id e < msg_id m)); tauto. }
      split; [|split; [|done]].
      * apply list_elem_of_filter. unfold after. split; [lia|done].
      * intros m Hm' Hc Hle. apply list_elem_of_filter. unfold after. split; [lia|done].
    + eapply find_none in Hfind; [|by apply list_elem_of_In].
      apply bool_decide_eq_false in Hfind. done.
  - intros Hnone. destruct (List.find _ (messages w)) as [e'|] eqn:Hfind; [|tauto].
    apply find_some in Hfind as [Hin Hb]. apply bool_decide_eq_true in Hb.
    apply list_elem_of_In in Hin. by apply Hnone in Hin.
  - intros w0. destruct (prune_messages_effect L ver w0) as (w' & -> & _). done.
Qed.

(** C5, as amended: a revert that returns gives the caller
    [{ success: true }] and nothing else.  The number of messages removed
    is only written to the log, in the line
    ["Deleting N messages after commit ... from chat ..."], when a message
    carries the target hash; when none does, nothing is logged and
    nothing is removed. *)
Theorem revert_returns_success_only (w wf : World G) (appId : Z) (ver : string)
    (r : SuccessResult) :
  revert_version C appId ver w = (wf, Returned r) →
  r = {| success := true |} ∧
  match find_message ver w with
  | Some e =>
    logs wf = logs w ++
      [LogInfo ("Deleting " +:+
                num (Z.of_nat (length (messages w) - length (messages wf))) +:+
                " messages after commit " +:+ ver +:+
                " from chat " +:+ num (msg_chatId e))]
  | None => logs wf = logs w ∧ messages wf = messages w
  end.
Proof.
  intros H. apply revert_version_returns in H
    as (app & w1 & matrix & w3 & w4 & author & w6 & c & Happ & H1 & H2 & H3 & H4 & H5 & H6 & H7 & Hr).
  split; [done|].
  destruct (revert_tail_frame _ _ _ _ _ _ _ _ _ H4 H6 H7) as (_ & Hm6 & Hl6 & _).
  destruct (loop_frame _ _ _ _ _ _ H3) as (Hm3 & Hl3 & _).
  apply git_checkout_files_trace in H1 as (_ & Hm1 & Hl1).
  assert (Hm : messages w6 = messages w) by (rewrite Hm6, Hm3; simpl; done).
  assert (Hl : logs w6 = logs w) by (rewrite Hl6, Hl3; simpl; done).
  destruct (prune_messages_effect L ver w6) as (w' & Hp & _ & _ & _ & Hcase).
  rewrite H7 in Hp. injection Hp as <-.
  unfold find_message in *. rewrite Hm in Hcase.
  destruct (List.find _ (messages w)) as [e|].
  - destruct Hcase as [Hms Hlog]. rewrite Hlog, Hl, Hms. unfold deleting_line.
    pose proof (length_filter_split (after (msg_chatId e) (msg_id e)) (messages w)).
    do 5 f_equal. unfold num. f_equal. lia.
  - destruct Hcase as [Hms Hlog]. split; congruence.
Qed.

(** C8, as amended: [checkout-version] leaves the tables [apps] and
    [messages] as they are and makes one call only, the forced
    [git.checkout] of the version (and no call for an unknown project):
    it makes no commit and deletes no message.  The store and the
    working tree are the ones that checkout left. *)
Theorem checkout_is_one_forced_checkout (w : World G) (appId : Z) (ver : string) :
  let wf := (checkout_version C appId ver w).1 in
  apps wf = apps w ∧
  messages wf = messages w ∧
  match find_app appId w with
  | None => wf = w
  | Some app =>
    let dir := lib_appPath L (app_path app) in
    trace wf = trace w ++ [EvCheckout dir ver true] ∧
    (∀ ev, ev ∈ trace wf → ev ∈ trace w ∨ ev = EvCheckout dir ver true) ∧
    (repo wf, files wf) = (lib_checkout L dir ver true (repo w, files w)).1
  end.
Proof.
  unfold checkout_version. unfold_monad.
  change (db_apps_findFirst C appId w) with (w, Returned (find_app appId w)).
  cbv beta iota.
  destruct (find_app appId w) as [app|]; [|done].
  change (getDyadAppPath C (app_path app)) with (lib_appPath L (app_path app)).
  set (dir := lib_appPath L (app_path app)).
  assert (Hin : ∀ ev, ev ∈ trace w ++ [EvCheckout dir ver true] →
                      ev ∈ trace w ∨ ev = EvCheckout dir ver true).
  { intros ev [Hev|Hev%list_elem_of_singleton]%elem_of_app; auto. }
  unfold git_checkout, world_collab.
  destruct (lib_checkout L dir ver true (repo w, files w)) as [[g t] [[]|e]];
    simpl; by repeat split.
Qed.

End Claims.

(** ** The order of the calls *)

Section Order.
Context {G : Type} (L : GitLib G).
Local Abbreviation C := (world_collab L).


Lemma quiet_ret {A} (a : A) : quiet (mret a : M (World G) A).
Proof. intros w. exists []. by rewrite app_nil_r. Qed.

Lemma quiet_throw {A} (e : JsError) : quiet (throw e : M (World G) A).
Proof. intros w. exists []. by rewrite app_nil_r. Qed.

Lemma quiet_gets {A} (f : World G → A) : quiet (gets f).
Proof. intros w. exists []. by rewrite app_nil_r. Qed.

Lemma quiet_log (l : LogLine) : quiet (modify (add_log l) : M (World G) unit).
Proof. intros w. exists []. by rewrite app_nil_r. Qed.

Lemma quiet_bind {A B} (m : M (World G) A) (f : A → M (World G) B) :
  quiet m → (∀ a, quiet (f a)) → quiet (m ≫= f).
Proof.
  intros Hm Hf w. unfold_monad. destruct (Hm w) as (evs1 & H1 & Q1).
  destruct (m w) as [w1 [a|e]]; simpl in *; [|eauto].
  destruct (Hf a w1) as (evs2 & H2 & Q2). exists (evs1 ++ evs2).
  rewrite H2, H1, app_assoc. split; [done|]. by apply Forall_app.
Qed.

Lemma quiet_try_catch {A} (m : M (World G) A) (h : JsError → M (World G) A) :
  quiet m → (∀ e, quiet (h e)) → quiet (try_catch m h).
Proof.
  intros Hm Hh w. unfold_monad. destruct (Hm w) as (evs1 & H1 & Q1).
  destruct (m w) as [w1 [a|e]]; simpl in *; [eauto|].
  destruct (Hh e w1) as (evs2 & H2 & Q2). exists (evs1 ++ evs2).
  rewrite H2, H1, app_assoc. split; [done|]. by apply Forall_app.
Qed.

Lemma quiet_for_of {A} (l : list A) (f : A → M (World G) unit) :
  (∀ x, quiet (f x)) → quiet (for_of l f).
Proof.
  intros Hf. induction l as [|x l IH]; simpl; [apply quiet_ret|].
  apply quiet_bind; auto.
Qed.

Lemma quiet_fs_call ev f : is_checkout ev = false → quiet (fs_call (G:=G) ev f).
Proof.
  intros Hev w. exists [ev]. unfold fs_call.
  destruct (f (files w)); simpl; by repeat constructor.
Qed.

Ltac one_call := intros w; eexists [_]; simpl; split; [done|by repeat constructor].

Lemma quiet_statusMatrix dir ref : quiet (git_statusMatrix C dir ref).
Proof. one_call. Qed.
Lemma quiet_readBlob dir ver fp : quiet (git_readBlob C dir ver fp).
Proof. one_call. Qed.
Lemma quiet_remove dir fp : quiet (git_remove C dir fp).
Proof. one_call. Qed.
Lemma quiet_add dir fp : quiet (git_add C dir fp).
Proof. one_call. Qed.
Lemma quiet_commit dir msg author : quiet (git_commit C dir msg author).
Proof. one_call. Qed.
Lemma quiet_getGitAuthor : quiet (getGitAuthor C).
Proof. one_call. Qed.
Lemma quiet_findFirst ver : quiet (db_messages_findFirst C ver).
Proof. one_call. Qed.
Lemma quiet_findMany chatId i : quiet (db_messages_findMany C chatId i).
Proof. one_call. Qed.
Lemma quiet_delete chatId i : quiet (db_messages_delete C chatId i).
Proof. one_call. Qed.

Lemma quiet_revert_row dir ver row : quiet (revert_row C dir ver row).
Proof.
  destruct row as [[[fp h] wd] st]. unfold revert_row.
  destruct (h =? 1).
  - destruct (negb (wd =? 1)); [|apply quiet_ret].
    apply quiet_bind; [apply quiet_readBlob|intros blob].
    apply quiet_bind; intros; by apply quiet_fs_call.
  - destruct ((h =? 0) && negb (wd =? 0)); [|apply quiet_ret].
    apply quiet_bind; [apply quiet_gets|intros [|]; [|apply quiet_ret]].
    apply quiet_bind; [by apply quiet_fs_call|intros; apply quiet_remove].
Qed.

Lemma quiet_prune_messages ver : quiet (prune_messages C ver).
Proof.
  unfold prune_messages. apply quiet_bind; [apply quiet_findFirst|].
  intros [e|]; [|apply quiet_ret].
  apply quiet_bind; [apply quiet_findMany|intros ms].
  apply quiet_bind; [apply quiet_log|intros _].
  case_decide; [apply quiet_delete|apply quiet_ret].
Qed.

Lemma checkout_then_quiet {A} dir ref force (k : M (World G) A)
    (h : JsError → M (World G) A) :
  quiet k → (∀ e, quiet (h e)) →
  ∀ w, ∃ rest,
    trace (try_catch (git_checkout C dir ref force;; k) h w).1
      = trace w ++ EvCheckout dir ref force :: rest ∧
    Forall (λ ev, is_checkout ev = false) rest.
Proof.
  intros Hk Hh w. unfold try_catch, mbind, M_bind. simpl.
  destruct (lib_checkout L dir ref force (repo w, files w)) as [[g t] [[]|e]]; simpl.
  - match goal with |- context [k ?w1] => destruct (Hk w1) as (evs & Ht & Q);
      destruct (k w1) as [w2 [a|e]]; simpl in * end.
    + exists evs. by rewrite Ht, <- app_assoc.
    + destruct (Hh e w2) as (evs2 & Ht2 & Q2).
      exists (evs ++ evs2). rewrite Ht2, Ht, <- !app_assoc. split; [done|].
      by apply Forall_app.
  - match goal with |- context [h e ?w1] => destruct (Hh e w1) as (evs & Ht & Q) end.
    simpl in *. exists evs. by rewrite Ht, <- app_assoc.
Qed.

(** C7: for a project of the registry, the first call a revert makes
    is the forced [git.checkout] of ["main"]; every other call comes
    after it and none of them is a checkout; when that checkout throws
    nothing else is called; and when the revert returns, the commit was
    made after it. *)
Theorem revert_checks_out_main_first (w : World G) (appId : Z) (ver : string)
    (app : App) :
  find_app appId w = Some app →
  let dir := lib_appPath L (app_path app) in
  let out := revert_version C appId ver w in
  ∃ rest,
    trace out.1 = trace w ++ EvCheckout dir "main" true :: rest ∧
    Forall (λ ev, is_checkout ev = false) rest ∧
    (∀ e, (lib_checkout L dir "main" true (repo w, files w)).2 = Raised e →
          rest = []) ∧
    (∀ r, out.2 = Returned r →
          ∃ author,
            EvCommit dir ("Reverted all changes back to version " +:+ ver) author
              ∈ rest).
Proof.
  intros Happ dir out.
  assert (Hq : ∃ rest, trace out.1 = trace w ++ EvCheckout dir "main" true :: rest ∧
                       Forall (λ ev, is_checkout ev = false) rest).
  { subst out. unfold revert_version, revert_try.
    unfold mbind at 1. unfold M_bind, gets.
    change (db_apps_findFirst C appId w) with (w, Returned (find_app appId w)). rewrite Happ.
    change (getDyadAppPath C (app_path app)) with dir.
    apply checkout_then_quiet.
    - apply quiet_bind; [apply quiet_statusMatrix|intros matrix].
      apply quiet_bind; [apply quiet_for_of; intros; apply quiet_revert_row|intros _].
      apply quiet_bind; [apply quiet_add|intros _].
      apply quiet_bind; [apply quiet_getGitAuthor|intros author].
      apply quiet_bind; [apply quiet_commit|intros _].
      apply quiet_bind; [apply quiet_prune_messages|intros _; apply quiet_ret].
    - intros e. apply quiet_bind; [apply quiet_log|intros; apply quiet_throw]. }
  destruct Hq as (rest & Ht & Q). exists rest. split; [done|]. split; [done|]. split.
  - intros e He. subst out. revert Ht. unfold revert_version, revert_try. unfold_monad.
    change (db_apps_findFirst C appId w) with (w, Returned (find_app appId w)). rewrite Happ.
    change (getDyadAppPath C (app_path app)) with dir. simpl.
    destruct (lib_checkout L dir "main" true (repo w, files w)) as [[g t] o].
    simpl in He. subst o. simpl. intros Ht.
    apply app_inv_head in Ht. by injection Ht.
  - intros r Hr. subst out.
    destruct (revert_version C appId ver w) as [wf o] eqn:Hrun. simpl in *. subst o.
    apply revert_version_returns in Hrun
      as (app' & w1 & matrix & w3 & w4 & author & w6 & c & Happ' & H1 & H2 & H3 & H4 & H5 & H6 & H7 & _).
    rewrite Happ in Happ'. injection Happ' as <-. fold dir in H1, H2, H3, H4, H6.
    destruct (revert_tail_frame _ _ _ _ _ _ _ _ _ _ H4 H6 H7) as (_ & _ & _ & evs2 & Ht2 & _).
    destruct (loop_frame _ _ _ _ _ _ H3) as (_ & _ & [evs1 Ht1] & _).
    apply git_checkout_files_trace in H1 as (Ht0 & _).
    rewrite Ht2, Ht1 in Ht. simpl in Ht. rewrite Ht0 in Ht.
    rewrite <- !app_assoc in Ht. apply app_inv_head in Ht. simpl in Ht.
    injection Ht as <-. exists author. set_solver.
Qed.

End Order.

(** ** Failures of a revert *)

Section Failures.
Context {S : Type} (c : Collab S).


Lemma revert_try_raises dir ver s s' cause :
  revert_try c dir ver s = (s', Raised cause) ↔ RevertFailure c dir ver s s' cause.
Proof.
  unfold revert_try. unfold_monad. split.
  - destruct (git_checkout c dir "main" true s) as [s1 [[]|e]] eqn:H1;
      [|intros [= <- <-]; by apply FailedCheckout].
    destruct (git_statusMatrix c dir ver s1) as [s2 [matrix|e]] eqn:H2;
      [|intros [= <- <-]; by eapply FailedStatusMatrix].
    assert (Hm : reached_matrix c dir ver s s2 matrix) by (by exists s1).
    destruct (for_of matrix _ s2) as [s3 [[]|e]] eqn:H3;
      [|intros [= <- <-]; by eapply FailedRow].
    destruct (git_add c dir ["."] s3) as [s4 [[]|e]] eqn:H4;
      [|intros [= <- <-]; by eapply FailedAdd].
    assert (Hs : reached_staged c dir ver s s4) by (by exists s2, matrix, s3).
    destruct (getGitAuthor c s4) as [s5 [author|e]] eqn:H5;
      [|intros [= <- <-]; by eapply FailedAuthor].
    destruct (git_commit c dir _ author s5) as [s6 [commit|e]] eqn:H6;
      [|intros [= <- <-]; by eapply FailedCommit].
    assert (Hc : reached_commit c dir ver s s6) by (by exists s4, s5, author, commit).
    destruct (prune_messages c ver s6) as [s7 [[]|e]] eqn:H7;
      [discriminate|intros [= <- <-]; by eapply FailedPrune].
  - intros [s1 e H1
           |s1 s2 e H1 H2
           |s2 matrix s3 e (s1 & H1 & H2) H3
           |s2 matrix s3 s4 e (s1 & H1 & H2) H3 H4
           |s4 s5 e (s2 & matrix & s3 & (s1 & H1 & H2) & H3 & H4) H5
           |s4 s5 author s6 e (s2 & matrix & s3 & (s1 & H1 & H2) & H3 & H4) H5 H6
           |s6 s7 e (s4 & s5 & author & commit
                     & (s2 & matrix & s3 & (s1 & H1 & H2) & H3 & H4) & H5 & H6) H7];
      rewrite H1; try rewrite H2; try rewrite H3; try rewrite H4; try rewrite H5;
      try rewrite H6; try rewrite H7; done.
Qed.

(** C6, as amended: a lookup of the project that rejects makes the
    revert throw the error of the lookup, and an unknown project makes it
    throw ["App not found"].  Otherwise the revert throws exactly when a
    step of its [try] block throws, and then the error thrown has the
    message ["Failed to revert version: "] followed by the message of the
    cause and nothing else, and the world is the one the failing step
    left, with one more line in the log: nothing is rolled back.  The
    handler writes the target in the text of that log line; it does not
    add it to the error thrown. *)
Theorem revert_failure_is_wrapped (appId : Z) (ver : string) (s : S) :
  match db_apps_findFirst c appId s with
  | (s0, Raised rejected) => revert_version c appId ver s = (s0, Raised rejected)
  | (s0, Returned None) =>
    revert_version c appId ver s = (s0, Raised (Error "App not found"))
  | (s0, Returned (Some app)) =>
    ∀ s' e,
      revert_version c appId ver s = (s', Raised e) ↔
      ∃ s1 cause,
        RevertFailure c (getDyadAppPath c (app_path app)) ver s0 s1 cause ∧
        s' = logger_error c
               ("Error reverting to version " +:+ ver +:+
                " for app " +:+ num appId +:+ ":") cause s1 ∧
        e = Error ("Failed to revert version: " +:+ err_message cause)
  end.
Proof.
  unfold revert_version. unfold_monad.
  destruct (db_apps_findFirst c appId s) as [s0 [[app|]|rejected]];
    [|reflexivity|reflexivity].
  intros s' e.
  destruct (revert_try c _ ver s0) as [s1 [r|cause]] eqn:Htry.
  - split; [discriminate|]. intros (s2 & cause & Hf & _).
    apply revert_try_raises in Hf. congruence.
  - split.
    + intros [= <- <-]. exists s1, cause. by rewrite <- revert_try_raises.
    + intros (s2 & cause' & Hf & -> & ->). apply revert_try_raises in Hf.
      rewrite Htry in Hf. by injection Hf as <- <-.
Qed.

End Failures.

(** ** The properties on the example worlds *)
Section Witnesses.
Import Examples SimpleGit.




(** C4: with the [apps] table locked, the lookup of the project rejects
    and [get-current-branch] throws the error of the lookup: no
    [BranchResult] is returned. *)
Lemma get_current_branch_raises_on_rejected_lookup :
  get_current_branch locked_registry 1 on_main
    = (on_main, Raised (Error "SQLITE_BUSY: database is locked")) ∧
  ∀ r, (get_current_branch locked_registry 1 on_main).2 ≠ Returned r.
Proof. split; [reflexivity|]. intros r. discriminate. Qed.

Lemma get_current_branch_raises_only_from_lookup_witness :
  get_current_branch locked_registry 1 on_main
    = (on_main, Raised (Error "SQLITE_BUSY: database is locked")) ∧
  get_current_branch (world_collab lib) 3 on_main
    = (on_main, Returned (BranchFailure "App not found")) ∧
  get_current_branch (world_collab lib) 2 on_main
    = (on_main, Returned (BranchFailure "Not a git repository")) ∧
  (get_current_branch (world_collab lib) 1 (set_repo [] on_main)).2
    = Returned (BranchFailure "Failed to get current branch: Could not find HEAD.") ∧
  (get_current_branch (world_collab lib) 1 on_main).2
    = Returned (BranchSuccess "main").
Proof.
  split; [|split; [|split; [|split]]].
  - destruct (get_current_branch_raises_only_from_lookup locked_registry 1 on_main)
      as (Hrejected & _).
    apply Hrejected. reflexivity.
  - destruct (get_current_branch_raises_only_from_lookup (world_collab lib) 3 on_main)
      as (_ & Hresolved & _).
    destruct (Hresolved on_main None eq_refl) as (_ & Hunknown & _).
    apply Hunknown. reflexivity.
  - destruct (get_current_branch_raises_only_from_lookup (world_collab lib) 2 on_main)
      as (_ & Hresolved & _).
    destruct (Hresolved on_main _ eq_refl) as (_ & _ & Hknown).
    destruct (Hknown _ eq_refl) as [Hnostore _]. apply Hnostore. reflexivity.
  - destruct (get_current_branch_raises_only_from_lookup (world_collab lib) 1
                (set_repo [] on_main)) as (_ & Hresolved & _).
    destruct (Hresolved (set_repo [] on_main) _ eq_refl) as (_ & _ & Hknown).
    destruct (Hknown _ eq_refl) as [_ Hstore].
    destruct (Hstore eq_refl (record (EvCurrentBranch demo false) (set_repo [] on_main)))
      as [Hraised _].
    apply (Hraised (Error "Could not find HEAD.")). reflexivity.
  - destruct (get_current_branch_raises_only_from_lookup (world_collab lib) 1 on_main)
      as (_ & Hresolved & _).
    destruct (Hresolved on_main _ eq_refl) as (_ & _ & Hknown).
    destruct (Hknown _ eq_refl) as [_ Hstore].
    destruct (Hstore eq_refl (record (EvCurrentBranch demo false) on_main))
      as [_ Hreturned].
    apply Hreturned; [reflexivity|discriminate].
Defined.

Lemma detached_head_is_no_branch_witness :
  git_currentBranch (world_collab lib) demo false detached
    = (record (EvCurrentBranch demo false) detached, Returned None) ∧
  get_current_branch (world_collab lib) 1 detached
    = (record (EvCurrentBranch demo false) detached,
       Returned (BranchSuccess "<no-branch>")).
Proof.
  split; [reflexivity|].
  apply (detached_head_is_no_branch (world_collab lib) 1
           {| app_id := 1; app_path := "demo" |} detached detached); reflexivity.
Defined.



Lemma reverted_returns :
  revert_version (world_collab lib) 1 "c1" on_main
    = (reverted, Returned {| success := true |}).
Proof. vm_compute. reflexivity. Qed.
Lemma revert_restores_and_deletes_witness :
  revert_version (world_collab lib) 1 "c1" on_main
    = (reverted, Returned {| success := true |}) ∧
  files reverted !! (demo ++ ["a.txt"]) = Some (File (bytes "one")) ∧
  files reverted !! (demo ++ ["src"; "b.txt"]) = Some (File (bytes "bee")) ∧
  is_dir (files reverted) (demo ++ ["src"]) = true ∧
  is_file (files reverted) (demo ++ ["c.txt"]) = false.
Proof.
  split; [exact reverted_returns|].
  destruct (revert_restores_and_deletes lib on_main reverted 1 "c1" _ reverted_returns)
    as (app & w1 & matrix & evs & Happ & H1 & H2 & Ht & Hrows).
  vm_compute in Happ. injection Happ as <-.
  apply (f_equal fst) in H1. simpl fst in H1. subst w1.
  vm_compute in H2. injection H2 as <-.
  clear Ht.
  assert (Hnd : NoDup (row_filepath <$>
            [(["src"; "b.txt"], 1, 0, 0); (["a.txt"], 1, 2, 2); (["c.txt"], 0, 2, 2)]
            : list Path)) by (apply (bool_decide_unpack _); vm_compute; exact I).
  specialize (Hrows Hnd).
  destruct (Hrows ["a.txt"] 1 2 2) as [Ha _];
    [apply (bool_decide_unpack _); vm_compute; exact I|].
  destruct (Hrows ["src"; "b.txt"] 1 0 0) as [Hb _];
    [apply (bool_decide_unpack _); vm_compute; exact I|].
  destruct (Hrows ["c.txt"] 0 2 2) as [_ Hc];
    [apply (bool_decide_unpack _); vm_compute; exact I|].
  clear Hrows.
  destruct Ha as (blob & Hev & Hfile & _); [reflexivity|discriminate|].
  destruct Hb as (blob' & Hev' & Hfile' & Hdir); [reflexivity|discriminate|].
  destruct Hc as (Hgone & _); [reflexivity|discriminate|vm_compute; reflexivity|].
  clear Hev Hev'.
  pose proof Hfile as Hblob. vm_compute in Hblob. injection Hblob as <-.
  pose proof Hfile' as Hblob. vm_compute in Hblob. injection Hblob as <-.
  split; [exact Hfile|]. split; [exact Hfile'|]. split; [exact Hdir|exact Hgone].
Defined.
Lemma revert_prunes_later_entries_witness :
  revert_version (world_collab lib) 1 "c1" on_main
    = (reverted, Returned {| success := true |}) ∧
  msg_id <$> messages on_main = [1; 2; 3; 4; 5; 6] ∧
  msg_id <$> messages reverted = [1; 2; 3; 6].
Proof.
  split; [exact reverted_returns|]. split; [reflexivity|].
  destruct (revert_prunes_later_entries lib on_main reverted 1 "c1" _ reverted_returns)
    as (Hfound & _ & _).
  destruct (Hfound {| msg_id := 3; msg_chatId := 7; msg_commitHash := Some "c1" |})
    as (Hms & _).
  - apply list_elem_of_In. simpl. auto.
  - reflexivity.
  - intros e' Hin Hhash. apply list_elem_of_In in Hin. simpl in Hin.
    repeat (destruct Hin as [<-|Hin]; [first [reflexivity|discriminate]|]).
    destruct Hin.
  - rewrite Hms. reflexivity.
Defined.

Lemma revert_returns_success_only_witness :
  revert_version (world_collab lib) 1 "c1" on_main
    = (reverted, Returned {| success := true |}) ∧
  logs reverted = [LogInfo "Deleting 2 messages after commit c1 from chat 7"].
Proof.
  split; [exact reverted_returns|].
  destruct (revert_returns_success_only lib on_main reverted 1 "c1" _ reverted_returns)
    as [_ Hlog].
  change (find_message "c1" on_main)
    with (Some {| msg_id := 3; msg_chatId := 7; msg_commitHash := Some "c1" |}) in Hlog.
  rewrite Hlog. reflexivity.
Defined.

Lemma revert_checks_out_main_first_witness :
  find_app 1 on_main = Some {| app_id := 1; app_path := "demo" |} ∧
  ∃ rest, trace reverted = EvCheckout demo "main" true :: rest ∧
          Forall (λ ev, is_checkout ev = false) rest.
Proof.
  split; [reflexivity|].
  destruct (revert_checks_out_main_first lib on_main 1 "c1"
              {| app_id := 1; app_path := "demo" |} eq_refl)
    as (rest & Ht & Hq & _).
  exists rest. split; [exact Ht|exact Hq].
Defined.
Lemma commit_count_assoc_set dir (r r' : Repo) (g : Store) :
  assoc dir g = Some r → commits r' = commits r →
  commit_count (assoc_set dir r' g) = commit_count g.
Proof.
  unfold assoc, commit_count. intros Hr Hc.
  induction g as [|[d r0] g IH]; [done|]. simpl in *.
  destruct (decide (d = dir)) as [->|Hne].
  - rewrite bool_decide_eq_true_2 in Hr by done. simpl in Hr.
    injection Hr as ->. simpl. by rewrite Hc.
  - rewrite bool_decide_eq_false_2 in Hr by done. simpl. f_equal. by apply IH.
Qed.

Lemma checkout_preserves_commit_count (dir : Path) (ref : string) (st : Store * FileTree) :
  commit_count (checkout dir ref true st).1.1 = commit_count st.1.
Proof.
  unfold checkout. destruct st as [g t]. simpl.
  destruct (assoc dir g) as [r|] eqn:Hr; [|done].
  destruct (resolve_ref r ref) as [[h c]|]; [|done].
  destruct (foldl _ _ _) as [t'|e]; [|done]. simpl.
  by apply (commit_count_assoc_set dir r).
Qed.

(** C8: on the example, [main] is at [c2] and [list-versions] lists
    two versions.  After [checkout-version] of [c1] it lists one: [HEAD]
    is detached at [c1] and the log starts there.  The store holds two
    commits before and after. *)
Lemma checkout_shortens_listed_history :
  (list_versions (world_collab lib) 1 on_main).2
    = Returned [{| oid := "c2"; message := "second"; timestamp := 200 |};
                {| oid := "c1"; message := "first"; timestamp := 100 |}] ∧
  checkout_version (world_collab lib) 1 "c1" on_main
    = (checked_out, Returned {| success := true |}) ∧
  (list_versions (world_collab lib) 1 checked_out).2
    = Returned [{| oid := "c1"; message := "first"; timestamp := 100 |}] ∧
  commit_count (repo on_main) = 2%nat ∧
  commit_count (repo checked_out) = 2%nat.
Proof. repeat split; vm_compute; reflexivity. Qed.

Lemma checkout_is_one_forced_checkout_witness :
  messages checked_out = messages on_main ∧
  trace checked_out = [EvCheckout demo "c1" true] ∧
  (∀ author message, EvCommit demo message author ∉ trace checked_out) ∧
  commit_count (repo checked_out) = commit_count (repo on_main) ∧
  files checked_out !! (demo ++ ["a.txt"]) = Some (File (bytes "one")).
Proof.
  destruct (checkout_is_one_forced_checkout lib on_main 1 "c1")
    as (_ & Hm & Ht & Hin & Hr).
  fold checked_out in Hm, Ht, Hin, Hr.
  split; [exact Hm|]. split; [exact Ht|]. split; [|split; [|reflexivity]].
  - intros author message Hev. by destruct (Hin _ Hev) as [Hold%elem_of_nil|?].
  - apply (f_equal fst) in Hr. cbn [fst] in Hr. rewrite Hr.
    apply checkout_preserves_commit_count.
Defined.

(** C5: two reverts remove two entries and none, and return the same
    value. *)
Lemma revert_result_carries_no_count :
  ¬ ∃ count : SuccessResult → nat,
      ∀ w ver wf r,
        revert_version (world_collab lib) 1 ver w = (wf, Returned r) →
        count r = (length (messages w) - length (messages wf))%nat.
Proof.
  intros [count Hcount].
  pose proof (Hcount on_main "c1" _ _ reverted_returns) as H2.
  assert (H0 : revert_version (world_collab lib) 1 "c1" unreferenced
               = ((revert_version (world_collab lib) 1 "c1" unreferenced).1,
                  Returned {| success := true |})) by (vm_compute; reflexivity).
  apply Hcount in H0. rewrite H2 in H0. vm_compute in H0. discriminate.
Qed.

(** C6: the author lookup fails after the files were written; the
    error raised is made of the prefix and the message of that cause
    and does not mention the target [c1], and the files stay as the
    revert left them. *)
Lemma revert_error_omits_target :
  let out := revert_version (world_collab lib) 1 "c1" no_author in
  out.2 = Raised (Error "Failed to revert version: Could not read the git author") ∧
  (∀ e, out.2 = Raised e → mentions e "c1" = false) ∧
  files no_author !! (demo ++ ["a.txt"]) = Some (File (bytes "two")) ∧
  files out.1 !! (demo ++ ["a.txt"]) = Some (File (bytes "one")).
Proof.
  split; [vm_compute; reflexivity|]. split; [|split; reflexivity].
  intros e He. vm_compute in He. injection He as <-. reflexivity.
Qed.

(** The error thrown is the prefix and the message of the cause in both
    runs: the cause of the first does not name its target [c1], the
    cause of the second names the unknown target [c9]. *)
Lemma revert_failure_is_wrapped_witness :
  (revert_version (world_collab lib) 1 "c1" no_author).2
    = Raised (Error "Failed to revert version: Could not read the git author") ∧
  (revert_version (world_collab lib) 1 "c9" on_main).2
    = Raised (Error "Failed to revert version: Could not find c9.").
Proof.
  split.
  - pose proof (revert_failure_is_wrapped (world_collab lib) 1 "c1" no_author) as H.
    change (db_apps_findFirst (world_collab lib) 1 no_author)
      with (no_author, Returned (Some {| app_id := 1; app_path := "demo" |})) in H.
    cbv beta iota in H.
    set (w1 := (git_checkout (world_collab lib) demo "main" true no_author).1).
    set (w2 := record (EvStatusMatrix demo "c1") w1).
    set (matrix := [(["src"; "b.txt"], 1, 0, 0); (["a.txt"], 1, 2, 2);
                    (["c.txt"], 0, 2, 2)] : list StatusRow).
    set (w3 := (for_of matrix (revert_row (world_collab lib) demo "c1") w2).1).
    set (w4 := (git_add (world_collab lib) demo ["."] w3).1).
    set (cause := Error "Could not read the git author").
    assert (Hfail : RevertFailure (world_collab lib) demo "c1" no_author
                      (record EvGetGitAuthor w4) cause).
    { apply (FailedAuthor _ _ _ _ w4); [|reflexivity].
      exists w2, matrix, w3. split; [|split].
      - exists w1. split; [reflexivity|]. vm_compute. reflexivity.
      - vm_compute. reflexivity.
      - reflexivity. }
    rewrite (proj2 (H _ _) (ex_intro _ _ (ex_intro _ cause (conj Hfail (conj eq_refl eq_refl))))).
    reflexivity.
  - pose proof (revert_failure_is_wrapped (world_collab lib) 1 "c9" on_main) as H.
    change (db_apps_findFirst (world_collab lib) 1 on_main)
      with (on_main, Returned (Some {| app_id := 1; app_path := "demo" |})) in H.
    cbv beta iota in H.
    set (w1 := (git_checkout (world_collab lib) demo "main" true on_main).1).
    set (cause := Error "Could not find c9.").
    assert (Hfail : RevertFailure (world_collab lib) demo "c9" on_main
                      (record (EvStatusMatrix demo "c9") w1) cause).
    { apply (FailedStatusMatrix _ _ _ _ w1); [reflexivity|]. vm_compute. reflexivity. }
    rewrite (proj2 (H _ _) (ex_intro _ _ (ex_intro _ cause (conj Hfail (conj eq_refl eq_refl))))).
    reflexivity.
Defined.

End Witnesses.

Module LockFacts.
Import Lock.

Lemma inv_init reqs : Inv reqs init.
Proof.
  split; simpl.
  - intros p i. rewrite lookup_empty. split; [done|]. by intros (k & rq & ? & _).
  - intros i m ?%elem_of_nil. done.
  - done.
  - done.
  - done.
Qed.

Lemma phase_insert (l : list Phase) (i j : nat) (ph ph0 : Phase) :
  l !! i = Some ph0 →
  <[i:=ph]> l !! j = if decide (i = j) then Some ph else l !! j.
Proof.
  intros Hi. case_decide as Hij.
  - subst j. apply list_lookup_insert_eq. by eapply lookup_lt_Some.
  - by apply list_lookup_insert_ne.
Qed.

Lemma inv_step reqs cfg cfg' : Inv reqs cfg → step reqs cfg cfg' → Inv reqs cfg'.
Proof.
  intros [Hheld Hlog Hrun Hfin Hord] Hstep.
  assert (Hme : ∀ i j p, in_body reqs cfg i p → in_body reqs cfg j p → i = j).
  { intros i j p Hi%Hheld Hj%Hheld. congruence. }
  destruct Hstep as [cfg rq Hrq|cfg i rq Hq Hrq Hfree Hfifo|cfg i rq k Hk Hrq Hlt
                    |cfg i rq Hk Hrq].
  - (* a call arrives *)
    assert (Hold : ∀ j ph, phases cfg !! j = Some ph →
                           (phases cfg ++ [Queued]) !! j = Some ph).
    { intros j ph Hj. by apply lookup_app_l_Some. }
    assert (Hnew : ∀ j ph, (phases cfg ++ [Queued]) !! j = Some ph → ph ≠ Queued →
                           phases cfg !! j = Some ph).
    { intros j ph Hj Hne. apply lookup_app_Some in Hj as [Hj|[_ Hj]]; [done|].
      apply list_lookup_singleton_Some in Hj as [_ <-]. done. }
    split; simpl.
    + intros p i. rewrite Hheld. unfold in_body. simpl. split.
      * intros (k & rq' & ? & ?). exists k, rq'. auto.
      * intros (k & rq' & Hi & ?). exists k, rq'. split; [|done]. by apply Hnew.
    + intros i m Hin. destruct (Hlog i m Hin) as [?|[k ?]]; eauto.
    + intros i k m Hi. apply Hrun. by apply Hnew.
    + intros i rq' m Hi. apply Hfin. by apply Hnew.
    + done.
  - (* a call takes the lock *)
    assert (Hins := λ j, phase_insert (phases cfg) i j (Running 0) _ Hq).
    split; simpl.
    + intros p j. unfold in_body. simpl. rewrite Hins.
      destruct (decide (req_appId rq = p)) as [<-|Hp].
      * rewrite lookup_insert_eq. split.
        -- intros [= <-]. rewrite decide_True by done. by exists 0%nat, rq.
        -- intros (k & rq' & Hj & Hrq' & Hp). case_decide; [congruence|].
           assert (held cfg !! req_appId rq = Some j) as Hh; [|congruence].
           apply Hheld. by exists k, rq'.
      * rewrite lookup_insert_ne by done. rewrite Hheld. unfold in_body.
        split; intros (k & rq' & Hj & Hrq' & Hp').
        -- exists k, rq'. case_decide; [congruence|done].
        -- case_decide; [congruence|]. by exists k, rq'.
    + intros j m Hin. rewrite Hins. case_decide; [eauto|]. by apply (Hlog j m).
    + intros j k m. rewrite Hins. case_decide.
      * intros [= <-] ?. lia.
      * apply Hrun.
    + intros j rq' m. rewrite Hins. case_decide; [done|apply Hfin].
    + done.
  - (* the holder runs a step *)
    assert (Hins := λ j, phase_insert (phases cfg) i j (Running (S k)) _ Hk).
    split; simpl.
    + intros p j. rewrite Hheld. unfold in_body. simpl. rewrite Hins. split.
      * intros (k' & rq' & Hj & ?). case_decide; [subst; eauto|eauto].
      * intros (k' & rq' & Hj & ?). case_decide; [subst; eauto|eauto].
    + intros j m. rewrite Hins. intros [Hin|Hin%list_elem_of_singleton]%elem_of_app.
      * case_decide; [eauto|by apply (Hlog j m)].
      * injection Hin as -> ->. rewrite decide_True by done. eauto.
    + intros j k' m. rewrite Hins. case_decide as Hij.
      * intros [= <-] Hm. subst j. apply elem_of_app.
        destruct (decide (m = k)) as [->|]; [right; by apply list_elem_of_singleton|].
        left. apply (Hrun i k); [done|lia].
      * intros Hj Hm. apply elem_of_app. left. by apply (Hrun j k').
    + intros j rq' m. rewrite Hins. case_decide; [done|].
      intros Hj Hrq' Hm. apply elem_of_app. left. by apply (Hfin j rq').
    + intros a b i' j m m' ri rj Ha Hb Hab Hne Hri Hrj Hp n Hn.
      assert (Hal : (a < length (log cfg))%nat).
      { apply lookup_lt_Some in Hb. rewrite length_app in Hb. simpl in Hb. lia. }
      rewrite lookup_app_l in Ha by done.
      destruct (decide (b < length (log cfg))%nat) as [Hbl|Hbl].
      * rewrite lookup_app_l in Hb by done.
        destruct (Hord a b i' j m m' ri rj Ha Hb Hab Hne Hri Hrj Hp n Hn) as (a' & ? & Ha').
        exists a'. split; [done|]. rewrite lookup_app_l; [done|].
        by eapply lookup_lt_Some.
      * (* the new step: the other call has finished *)
        rewrite lookup_app_r in Hb by lia.
        apply list_lookup_singleton_Some in Hb as [Hb0 [= <- <-]].
        assert (Hfin' : phases cfg !! i' = Some Finished).
        { destruct (Hlog i' m) as [?|[k' Hk']]; [by eapply list_elem_of_lookup_2|done|].
          destruct Hne. apply (Hme i' i (req_appId ri)).
          - by exists k', ri.
          - exists k, rq. rewrite Hrq in Hrj. injection Hrj as <-. done. }
        apply (Hfin i' ri n Hfin' Hri) in Hn.
        apply list_elem_of_lookup in Hn as [a' Ha'].
        exists a'. split; [apply lookup_lt_Some in Ha'; lia|].
        rewrite lookup_app_l; [done|]. by eapply lookup_lt_Some.
  - (* the holder gives the lock back *)
    assert (Hins := λ j, phase_insert (phases cfg) i j Finished _ Hk).
    split; simpl.
    + intros p j. unfold in_body. simpl. rewrite Hins.
      destruct (decide (req_appId rq = p)) as [<-|Hp].
      * rewrite lookup_delete_eq. split; [done|].
        intros (k & rq' & Hj & Hrq' & Hp). case_decide; [done|].
        destruct H. apply (Hme i j (req_appId rq)).
        -- by exists (req_steps rq), rq.
        -- by exists k, rq'.
      * rewrite lookup_delete_ne by done. rewrite Hheld. unfold in_body.
        split; intros (k & rq' & Hj & Hrq' & Hp').
        -- exists k, rq'. case_decide; [congruence|done].
        -- case_decide; [done|]. by exists k, rq'.
    + intros j m Hin. rewrite Hins. case_decide; [eauto|]. by apply (Hlog j m).
    + intros j k m. rewrite Hins. case_decide; [done|apply Hrun].
    + intros j rq' m. rewrite Hins. case_decide as Hij; [|apply Hfin].
      intros _ Hrq' Hm. subst j. rewrite Hrq in Hrq'. injection Hrq' as <-.
      by apply (Hrun i (req_steps rq)).
    + done.
Qed.

Lemma reachable_inv reqs cfg : reachable reqs cfg → Inv reqs cfg.
Proof.
  intros H. apply (rtc_ind_r (R:=step reqs) (Inv reqs) init); [apply inv_init| |exact H].
  intros y z _ Hstep IH. by eapply inv_step.
Qed.

(** C9: in every configuration the lock can reach, at most one call
    per project is inside its body, and a step of a call comes after the
    whole body of any other call of the same project that started before
    it; calls of different projects can be inside their bodies together. *)
Theorem one_body_per_project :
  (∀ reqs cfg, reachable reqs cfg →
     (∀ i j appId, in_body reqs cfg i appId → in_body reqs cfg j appId → i = j) ∧
     (∀ a b i j m m' ri rj,
        log cfg !! a = Some (i, m) → log cfg !! b = Some (j, m') → (a < b)%nat →
        i ≠ j → reqs !! i = Some ri → reqs !! j = Some rj →
        req_appId ri = req_appId rj →
        ∀ n, (n < req_steps ri)%nat →
             ∃ a', (a' < b)%nat ∧ log cfg !! a' = Some (i, n))) ∧
  (∃ cfg, reachable two_projects cfg ∧
          in_body two_projects cfg 0 1 ∧ in_body two_projects cfg 1 2 ∧
          log cfg = [(0, 0); (1, 0)]%nat).
Proof.
  split.
  - intros reqs cfg [Hheld _ _ _ Hord]%reachable_inv. split; [|exact Hord].
    intros i j p Hi%Hheld Hj%Hheld. congruence.
  - eexists. split.
    + unfold reachable.
      eapply rtc_r; [eapply rtc_r; [eapply rtc_r; [eapply rtc_r; [eapply rtc_r;
        [eapply rtc_r; [apply rtc_refl|]|]|]|]|]|].
      * eapply (Arrive _ init); simpl; reflexivity.
      * eapply Arrive; simpl; reflexivity.
      * eapply (Acquire _ _ 0%nat); [simpl; reflexivity..|]. intros; lia.
      * eapply (Acquire _ _ 1%nat); [simpl; reflexivity..|].
        intros [|j] rq' Hj Hrq'; [|lia]. simpl in Hrq'. injection Hrq' as <-.
        simpl. discriminate.
      * eapply (Exec _ _ 0%nat); [simpl; reflexivity..|simpl; lia].
      * eapply (Exec _ _ 1%nat); [simpl; reflexivity..|simpl; lia].
    + simpl. split; [by eexists 1%nat, _|]. split; [by eexists 1%nat, _|done].
Qed.

(** The second call on the same project runs its step after both steps
    of the first. *)
Lemma same_project_serial :
  ∃ cfg, reachable same_project cfg ∧ log cfg = [(0, 0); (0, 1); (1, 0)]%nat.
Proof.
  eexists. split.
  - unfold reachable.
    eapply rtc_r; [eapply rtc_r; [eapply rtc_r; [eapply rtc_r; [eapply rtc_r;
      [eapply rtc_r; [eapply rtc_r; [eapply rtc_r; [apply rtc_refl|]|]|]|]|]|]|]|].
    + eapply (Arrive _ init); simpl; reflexivity.
    + eapply Arrive; simpl; reflexivity.
    + eapply (Acquire _ _ 0%nat); [simpl; reflexivity..|]. intros; lia.
    + eapply (Exec _ _ 0%nat); [simpl; reflexivity..|simpl; lia].
    + eapply (Exec _ _ 0%nat); [simpl; reflexivity..|simpl; lia].
    + eapply (Release _ _ 0%nat). 2: (simpl; reflexivity). simpl; reflexivity.
    + eapply (Acquire _ _ 1%nat); [simpl; reflexivity..|].
      intros [|j] rq' Hj Hrq' _; [|lia]. simpl. discriminate.
    + eapply (Exec _ _ 1%nat); [simpl; reflexivity..|simpl; lia].
  - reflexivity.
Qed.

Lemma one_body_per_project_witness :
  ∃ cfg, reachable same_project cfg ∧
         log cfg !! 0%nat = Some (0, 0)%nat ∧ log cfg !! 2%nat = Some (1, 0)%nat ∧
         ∃ a', (a' < 2)%nat ∧ log cfg !! a' = Some (0, 1)%nat.
Proof.
  destruct same_project_serial as (cfg & Hreach & Hlog).
  exists cfg. split; [exact Hreach|]. rewrite Hlog. split; [reflexivity|].
  split; [reflexivity|]. rewrite <- Hlog.
  destruct one_body_per_project as [Hall _].
  destruct (Hall same_project cfg Hreach) as [_ Horder].
  apply (Horder 0%nat 2%nat 0%nat 1%nat 0%nat 0%nat
           {| req_appId := 1; req_op := Revert "c1"; req_steps := 2 |}
           {| req_appId := 1; req_op := Checkout "c2"; req_steps := 1 |});
    rewrite ?Hlog; simpl; first [reflexivity|lia].
Defined.

End LockFacts.

(** * Further properties of the handlers *)

Lemma justified_nil dir ver matrix : justified dir ver matrix [].
Proof.
  split; [constructor|]. repeat split; intros; exfalso; eapply not_elem_of_nil; eauto.
Qed.

Lemma justified_cons_app dir ver row rest evs1 evs2 :
  justified dir ver [row] evs1 → justified dir ver rest evs2 →
  justified dir ver (row :: rest) (evs1 ++ evs2).
Proof.
  intros (F1 & W1 & U1 & R1 & M1) (F2 & W2 & U2 & R2 & M2).
  split; [by apply Forall_app|]. split; [|split; [|split]].
  - intros p data [Hin|Hin]%elem_of_app.
    + destruct (W1 p data Hin) as (fp & h & wd & st & Hrow%list_elem_of_singleton & ? & ? & ? & ?).
      exists fp, h, wd, st. rewrite elem_of_cons, elem_of_app. auto 10.
    + destruct (W2 p data Hin) as (fp & h & wd & st & ? & ? & ? & ? & ?).
      exists fp, h, wd, st. rewrite elem_of_cons, elem_of_app. auto 10.
  - intros p [Hin|Hin]%elem_of_app.
    + destruct (U1 p Hin) as (fp & h & wd & st & Hrow%list_elem_of_singleton & ? & ? & ?).
      exists fp, h, wd, st. rewrite elem_of_cons. auto 10.
    + destruct (U2 p Hin) as (fp & h & wd & st & ? & ? & ? & ?).
      exists fp, h, wd, st. rewrite elem_of_cons. auto 10.
  - intros d fp [Hin|Hin]%elem_of_app.
    + destruct (R1 d fp Hin). rewrite elem_of_app. auto.
    + destruct (R2 d fp Hin). rewrite elem_of_app. auto.
  - intros p r [Hin|Hin]%elem_of_app; eauto.
Qed.

(** The calls of a restored row, of a deleted row, and their beginnings. *)
Lemma justified_restore dir ver fp h wd st blob :
  h = 1 → wd ≠ 1 →
  justified dir ver [(fp, h, wd, st)]
    [EvReadBlob dir ver fp (Returned blob);
     EvMkdir (path_dirname (path_join dir fp)) true;
     EvWriteFile (path_join dir fp) blob].
Proof.
  intros Hh Hwd. split; [by repeat constructor|]. split_and!.
  - intros p data Hin. exists fp, h, wd, st. set_unfold. naive_solver.
  - intros p Hin. set_unfold. naive_solver.
  - intros d fp' Hin. set_unfold. naive_solver.
  - intros p r Hin. set_unfold. naive_solver.
Qed.

Lemma justified_no_write dir ver fp h wd st res p recursive :
  recursive = true →
  justified dir ver [(fp, h, wd, st)] [EvReadBlob dir ver fp res] ∧
  justified dir ver [(fp, h, wd, st)] [EvReadBlob dir ver fp res; EvMkdir p recursive].
Proof.
  intros ->. split; (split; [by repeat constructor|]); split_and!; intros;
    set_unfold; naive_solver.
Qed.

Lemma justified_delete dir ver fp h wd st :
  h = 0 → wd ≠ 0 →
  justified dir ver [(fp, h, wd, st)] [EvUnlink (path_join dir fp)] ∧
  justified dir ver [(fp, h, wd, st)] [EvUnlink (path_join dir fp); EvRemove dir fp].
Proof.
  intros Hh Hwd. split; (split; [by repeat constructor|]); split_and!.
  - intros; set_unfold; naive_solver.
  - intros p Hin. exists fp, h, wd, st. set_unfold. naive_solver.
  - intros; set_unfold; naive_solver.
  - intros; set_unfold; naive_solver.
  - intros; set_unfold; naive_solver.
  - intros p Hin. exists fp, h, wd, st. set_unfold. naive_solver.
  - intros; set_unfold; naive_solver.
  - intros; set_unfold; naive_solver.
Qed.

Section AnyOutcome.
Context {G : Type} (L : GitLib G).
Local Abbreviation C := (world_collab L).


Lemma fs_call_files ev f (w w' : World G) o :
  fs_call ev f w = (w', o) →
  same_tables w w' ∧ trace w' = trace w ++ [ev] ∧ repo w' = repo w ∧
  match o with
  | Returned _ => f (files w) = Returned (files w')
  | Raised e => f (files w) = Raised e ∧ files w' = files w
  end.
Proof.
  unfold fs_call. destruct (f (files w)) as [t|e]; intros [= <- <-]; by repeat split.
Qed.

(** One row, whatever its outcome. *)
Lemma revert_row_any dir ver row (w w' : World G) o :
  revert_row C dir ver row w = (w', o) →
  same_tables w w' ∧
  (∃ evs, trace w' = trace w ++ evs ∧ justified dir ver [row] evs) ∧
  (∀ p, (path_join dir (row_filepath row) = p → asks_nothing row = true) →
        keeps p (files w) (files w')).
Proof.
  destruct row as [[[fp h] wd] st]. unfold revert_row. unfold_monad.
  assert (Hnone : same_tables w w ∧
            (∃ evs, trace w = trace w ++ evs ∧ justified dir ver [(fp, h, wd, st)] evs) ∧
            (∀ p : Path, (path_join dir (row_filepath (fp, h, wd, st)) = p →
                          asks_nothing (fp, h, wd, st) = true) →
                         keeps p (files w) (files w))).
  { split; [done|]. split; [|intros; apply keeps_refl].
    exists []. rewrite app_nil_r. split; [done|apply justified_nil]. }
  destruct (Z.eqb_spec h 1) as [->|Hh1].
  - destruct (Z.eqb_spec wd 1) as [->|Hwd]; simpl negb; cbv iota.
    + by intros [= <- <-].
    + assert (Hne : ∀ p, (path_join dir (row_filepath (fp, 1, wd, st)) = p →
                           asks_nothing (fp, 1, wd, st) = true) → p ≠ path_join dir fp).
      { intros p Hp ->. specialize (Hp eq_refl). unfold asks_nothing in Hp.
        simpl in Hp. by apply Z.eqb_eq in Hp. }
      fold (asks_nothing (fp, 1, wd, st)). simpl. destruct (lib_readBlob L dir ver fp (repo w)) as [blob|e] eqn:Hblob.
      * destruct (fs_call (EvMkdir _ true) _ _) as [w1 [[]|e]] eqn:Hmk.
        -- destruct (fs_call (EvWriteFile _ blob) _ w1) as [w2 o2] eqn:Hwr.
           intros [= <- <-].
           apply fs_call_files in Hmk as ((?&?&?&?) & Ht1 & _ & Hf1).
           apply fs_call_files in Hwr as ((?&?&?&?) & Ht2 & _ & Hf2).
           simpl in *. split; [unfold same_tables; simpl; split_and!; congruence|]. split.
           ++ eexists. split; [rewrite Ht2, Ht1, <- !app_assoc; reflexivity|].
              by apply justified_restore.
           ++ intros p Hp%Hne.
              eapply keeps_trans; [by eapply mkdir_keeps|].
              destruct o2 as [[]|e]; [by eapply write_file_keeps|].
              destruct Hf2 as [_ ->]. apply keeps_refl.
        -- intros [= <- <-].
           apply fs_call_files in Hmk as ((?&?&?&?) & Ht1 & _ & [_ Hf1]).
           simpl in *. split; [unfold same_tables; simpl; split_and!; congruence|]. split.
           ++ eexists. split; [rewrite Ht1, <- !app_assoc; reflexivity|].
              by apply justified_no_write.
           ++ intros p _. rewrite Hf1. apply keeps_refl.
      * intros [= <- <-]. simpl. split; [done|]. split; [|intros; apply keeps_refl].
        eexists. split; [reflexivity|].
        by apply (justified_no_write dir ver fp 1 wd st (Raised e) [] true).
  - destruct (Z.eqb_spec h 0) as [->|Hh0]; simpl andb; cbv iota.
    + destruct (Z.eqb_spec wd 0) as [->|Hwd]; simpl negb; cbv iota.
      * by intros [= <- <-].
      * assert (Hne : ∀ p, (path_join dir (row_filepath (fp, 0, wd, st)) = p →
                             asks_nothing (fp, 0, wd, st) = true) → p ≠ path_join dir fp).
        { intros p Hp ->. specialize (Hp eq_refl). unfold asks_nothing in Hp.
          simpl in Hp. rewrite negb_involutive in Hp. by apply Z.eqb_eq in Hp. }
        fold (asks_nothing (fp, 0, wd, st)). simpl. destruct (exists_sync (files w) (path_join dir fp)) eqn:Hex.
        -- destruct (fs_call (EvUnlink _) _ w) as [w1 [[]|e]] eqn:Hun.
           ++ intros [= <- <-].
              apply fs_call_files in Hun as ((?&?&?&?) & Ht1 & _ & Hf1).
              simpl in *. split; [unfold same_tables; simpl; split_and!; congruence|]. split.
              ** eexists. split; [rewrite Ht1, <- !app_assoc; reflexivity|].
                 by apply justified_delete.
              ** intros p Hp%Hne. by eapply unlink_keeps.
           ++ intros [= <- <-].
              apply fs_call_files in Hun as ((?&?&?&?) & Ht1 & _ & [_ Hf1]).
              simpl in *. split; [done|]. split.
              ** eexists. split; [rewrite Ht1; reflexivity|]. by apply justified_delete.
              ** intros p _. rewrite Hf1. apply keeps_refl.
        -- by intros [= <- <-].
    + by intros [= <- <-].
Qed.

End AnyOutcome.

Local Arguments prune_trace : simpl never.

Section Anatomy.
Context {G : Type} (L : GitLib G).
Local Abbreviation C := (world_collab L).

Lemma same_tables_trans (w1 w2 w3 : World G) :
  same_tables w1 w2 → same_tables w2 w3 → same_tables w1 w3.
Proof. unfold same_tables. intros (?&?&?&?) (?&?&?&?). split_and!; congruence. Qed.

(** The loop, whatever its outcome. *)
Lemma loop_any dir ver matrix : ∀ (w w' : World G) o,
  for_of matrix (revert_row C dir ver) w = (w', o) →
  same_tables w w' ∧
  (∃ evs, trace w' = trace w ++ evs ∧ justified dir ver matrix evs) ∧
  (∀ p, (∀ row, row ∈ matrix → path_join dir (row_filepath row) = p →
                asks_nothing row = true) →
        keeps p (files w) (files w')).
Proof.
  induction matrix as [|row rest IH]; intros w w' o H.
  - injection H as <- <-. split; [done|]. split; [|intros; apply keeps_refl].
    exists []. rewrite app_nil_r. split; [done|apply justified_nil].
  - simpl in H. unfold_monad.
    destruct (revert_row C dir ver row w) as [w1 [[]|e]] eqn:Hrow.
    + apply revert_row_any in Hrow as (T1 & (evs1 & Ht1 & J1) & K1).
      apply IH in H as (T2 & (evs2 & Ht2 & J2) & K2).
      split; [by eapply same_tables_trans|]. split.
      * exists (evs1 ++ evs2). split; [by rewrite Ht2, Ht1, app_assoc|].
        by apply justified_cons_app.
      * intros p Hp. eapply keeps_trans.
        -- apply K1. intros. apply Hp; [apply elem_of_cons; by left|done].
        -- apply K2. intros. apply Hp; [apply elem_of_cons; by right|done].
    + injection H as <- <-.
      apply revert_row_any in Hrow as (T1 & (evs1 & Ht1 & J1) & K1).
      split; [done|]. split.
      * exists evs1. split; [done|]. rewrite <- (app_nil_r evs1).
        apply justified_cons_app; [done|apply justified_nil].
      * intros p Hp. apply K1. intros. apply Hp; [apply elem_of_cons; by left|done].
Qed.

(** The calls of the pruning step. *)
Lemma prune_messages_trace ver (w : World G) :
  trace (prune_messages C ver w).1 = trace w ++ prune_trace ver w.
Proof.
  unfold prune_messages, prune_trace. unfold_monad. simpl.
  destruct (find_message ver w) as [e|]; [|done].
  change (find_messages (msg_chatId e) (msg_id e) (record (EvFindMessage ver) w))
    with (find_messages (msg_chatId e) (msg_id e) w).
  rewrite length_find_messages.
  case_decide; simpl; by rewrite <- !app_assoc.
Qed.

Lemma prune_trace_no_row ver (w : World G) :
  Forall (λ ev, is_row_event ev = false) (prune_trace ver w).
Proof.
  unfold prune_trace. destruct (find_message ver w); [case_decide|];
    by repeat constructor.
Qed.

(** A revert on a project of the registry, whatever its outcome: the
    loop runs over [rows] (none when the checkout or the comparison
    threw) from [start] to [mid]; what follows makes no call of the loop
    and leaves the files alone; the messages change only if the revert
    returns. *)
Lemma revert_version_anatomy (w : World G) (appId : Z) (ver : string) (app : App) :
  find_app appId w = Some app →
  let dir := lib_appPath L (app_path app) in
  let w1 := (git_checkout C dir "main" true w).1 in
  let out := revert_version C appId ver w in
  ∃ rows start mid o tail,
    (rows = [] ∨ lib_statusMatrix L dir ver (repo w1, files w1) = Returned rows) ∧
    (start = w1 ∨ start = record (EvStatusMatrix dir ver) w1) ∧
    for_of rows (revert_row C dir ver) start = (mid, o) ∧
    files out.1 = files mid ∧
    trace out.1 = trace mid ++ tail ∧
    Forall (λ ev, is_row_event ev = false) tail ∧
    (∀ e, out.2 = Raised e → messages out.1 = messages w).
Proof.
  intros Happ dir w1 out. subst out. unfold revert_version, revert_try. unfold_monad.
  change (db_apps_findFirst C appId w) with (w, Returned (find_app appId w)). rewrite Happ.
  change (getDyadAppPath C (app_path app)) with dir.
  destruct (git_checkout C dir "main" true w) as [w1' [[]|e]] eqn:H1; subst w1; cbn [fst].
  2:{ exists [], w1', w1', (Returned tt), []. simpl. rewrite app_nil_r.
      apply git_checkout_files_trace in H1 as (_ & Hm & _). by split_and!; auto. }
  pose proof (git_checkout_files_trace _ _ _ _ _ _ _ H1) as (_ & Hm1 & _).
  change (git_statusMatrix C dir ver w1')
    with (record (EvStatusMatrix dir ver) w1', lib_statusMatrix L dir ver (repo w1', files w1')).
  destruct (lib_statusMatrix L dir ver (repo w1', files w1')) as [matrix|e] eqn:H2.
  2:{ exists [], (record (EvStatusMatrix dir ver) w1'), (record (EvStatusMatrix dir ver) w1'),
        (Returned tt), []. simpl. rewrite app_nil_r. by split_and!; auto. }
  destruct (for_of matrix _ _) as [w3 o3] eqn:H3.
  pose proof (loop_any _ _ _ _ _ _ H3) as ((_ & Hm3 & _) & _). simpl in Hm3.
  exists matrix, (record (EvStatusMatrix dir ver) w1'), w3, o3.
  destruct o3 as [[]|e].
  2:{ exists []. simpl. rewrite app_nil_r. split_and!; auto. intros; congruence. }
  destruct (git_add C dir ["."] w3) as [w4 [[]|e]] eqn:H4;
    pose proof (git_add_frame _ _ _ _ _ _ H4) as (Hf4 & Hm4 & _ & Ht4).
  2:{ exists [EvAdd dir ["."]]. simpl. split_and!; auto;
        first [by repeat constructor|intros; congruence]. }
  change (getGitAuthor C w4) with (record EvGetGitAuthor w4, gitAuthor w4).
  destruct (gitAuthor w4) as [author|e] eqn:H5.
  2:{ exists [EvAdd dir ["."]; EvGetGitAuthor]. simpl. split_and!; auto;
        first [by repeat constructor|by rewrite Ht4, <- app_assoc|intros; congruence]. }
  destruct (git_commit C dir _ author _) as [w6 [c|e]] eqn:H6;
    pose proof (git_commit_frame _ _ _ _ _ _ _ H6) as (Hf6 & Hm6 & _ & Ht6).
  2:{ eexists [EvAdd dir ["."]; EvGetGitAuthor; EvCommit dir _ author].
      simpl. split_and!; auto;
        first [by repeat constructor|by rewrite Ht6, Ht4, <- app_assoc
              |intros; congruence]. }
  destruct (prune_messages_effect L ver w6) as (w7 & H7 & Hf7 & _ & _ & _).
  pose proof (prune_messages_trace ver w6) as Ht7. rewrite H7 in *. simpl in Ht7.
  eexists ([EvAdd dir ["."]; EvGetGitAuthor; EvCommit dir _ author] ++ prune_trace ver w6).
  simpl. split_and!; auto.
  - congruence.
  - rewrite Ht7, Ht6, Ht4, <- !app_assoc. done.
  - do 3 (constructor; [done|]). apply prune_trace_no_row.
  - intros; congruence.
Qed.

End Anatomy.

Section Further.
Context {G : Type} (L : GitLib G).
Local Abbreviation C := (world_collab L).

Lemma checkout_trace dir ref force (w : World G) :
  trace (git_checkout C dir ref force w).1 = trace w ++ [EvCheckout dir ref force] ∧
  same_tables w (git_checkout C dir ref force w).1.
Proof. done. Qed.

Lemma prune_trace_messages ver (w w' : World G) :
  messages w' = messages w → prune_trace ver w' = prune_trace ver w.
Proof. unfold prune_trace, find_message. by intros ->. Qed.

(** The calls of a revert that returns, in order. *)
Lemma revert_returns_calls (w wf : World G) (appId : Z) (ver : string)
    (r : SuccessResult) :
  revert_version C appId ver w = (wf, Returned r) →
  ∃ app matrix loop author,
    find_app appId w = Some app ∧
    lib_statusMatrix L (lib_appPath L (app_path app)) ver
      (repo (git_checkout C (lib_appPath L (app_path app)) "main" true w).1,
       files (git_checkout C (lib_appPath L (app_path app)) "main" true w).1)
      = Returned matrix ∧
    justified (lib_appPath L (app_path app)) ver matrix loop ∧
    gitAuthor w = Returned author ∧
    trace wf = trace w ++
      [EvCheckout (lib_appPath L (app_path app)) "main" true;
       EvStatusMatrix (lib_appPath L (app_path app)) ver] ++ loop ++
      [EvAdd (lib_appPath L (app_path app)) ["."]; EvGetGitAuthor;
       EvCommit (lib_appPath L (app_path app))
         ("Reverted all changes back to version " +:+ ver) author] ++
      prune_trace ver w.
Proof.
  intros H. apply revert_version_returns in H
    as (app & w1 & matrix & w3 & w4 & author & w6 & c & Happ & H1 & H2 & H3 & H4 & H5 & H6 & H7 & _).
  set (dir := lib_appPath L (app_path app)) in *.
  destruct (checkout_trace dir "main" true w) as [Ht1 T1]. rewrite H1 in Ht1, T1.
  simpl fst in Ht1, T1.
  apply loop_any in H3 as (T3 & (loop & Ht3 & J) & _).
  assert (Ha4 : gitAuthor w4 = gitAuthor w3) by (by injection H4 as <- _).
  apply git_add_frame in H4 as (_ & Hm4 & Hl4 & Ht4).
  apply git_commit_frame in H6 as (_ & Hm6 & _ & Ht6).
  pose proof (prune_messages_trace L ver w6) as Ht7. rewrite H7 in Ht7. simpl in Ht7.
  destruct T1 as (_ & Hm1 & _ & Ha1). destruct T3 as (_ & Hm3 & _ & Ha3).
  simpl in Hm1, Ha1, Hm3, Ha3, Ht3.
  exists app, matrix, loop, author. fold dir. rewrite H1. simpl fst.
  split_and!; try done.
  - congruence.
  - rewrite Ht7, Ht6, Ht4, Ht3, Ht1. rewrite <- !app_assoc. simpl.
    rewrite (prune_trace_messages ver w w6) by congruence. done.
Qed.


(** What a revert does to the messages, whatever its outcome. *)
Lemma revert_messages_cases (w : World G) (appId : Z) (ver : string) :
  let out := revert_version C appId ver w in
  messages out.1 = messages w ∨
  ∃ r e, out.2 = Returned r ∧ find_message ver w = Some e ∧
         messages out.1
           = filter (λ m, ¬ after (msg_chatId e) (msg_id e) m) (messages w).
Proof.
  intros out. destruct out as [wf [r|e]] eqn:Hout; subst out.
  - pose proof Hout as H. apply revert_version_returns in H
      as (app & w1 & matrix & w3 & w4 & author & w6 & c & Happ & H1 & H2 & H3 & H4 & H5 & H6 & H7 & _).
    destruct (revert_tail_frame _ _ _ _ _ _ _ _ _ _ H4 H6 H7) as (_ & Hm6 & _).
    destruct (loop_frame _ _ _ _ _ _ H3) as (Hm3 & _).
    apply git_checkout_files_trace in H1 as (_ & Hm1 & _).
    assert (Hm : messages w6 = messages w) by (rewrite Hm6, Hm3; simpl; done).
    destruct (prune_messages_effect L ver w6) as (w' & Hp & _ & _ & _ & Hcase).
    rewrite H7 in Hp. injection Hp as <-.
    unfold find_message in *. rewrite Hm in Hcase. simpl.
    destruct (List.find _ (messages w)) as [e|].
    + right. exists r, e. by destruct Hcase.
    + left. by destruct Hcase.
  - left. destruct (find_app appId w) as [app|] eqn:Happ.
    + destruct (revert_version_anatomy L w appId ver app Happ)
        as (? & ? & ? & ? & ? & _ & _ & _ & _ & _ & _ & Hm).
      rewrite Hout in Hm. simpl in *. eauto.
    + revert Hout. unfold revert_version. unfold_monad.
      change (db_apps_findFirst C appId w) with (w, Returned (find_app appId w)). rewrite Happ.
      by intros [= <- _].
Qed.

End Further.

Section Extras.
Context {G : Type} (L : GitLib G).
Local Abbreviation C := (world_collab L).

(** X1: after the checkout of [main], a revert changes only the paths
    that a row of the matrix asks to restore or to delete, whatever its
    outcome: at any other path (no row for it, or only rows that ask for
    nothing, such as an unmodified file) a file keeps its content, no
    file appears, and directories stay. *)
Theorem revert_touches_only_asked_paths (w : World G) (appId : Z) (ver : string)
    (app : App) (p : Path) :
  find_app appId w = Some app →
  let dir := lib_appPath L (app_path app) in
  let w1 := (git_checkout C dir "main" true w).1 in
  (∀ matrix row,
     lib_statusMatrix L dir ver (repo w1, files w1) = Returned matrix →
     row ∈ matrix → path_join dir (row_filepath row) = p →
     asks_nothing row = true) →
  keeps p (files w1) (files (revert_version C appId ver w).1).
Proof.
  intros Happ dir w1 Hp.
  destruct (revert_version_anatomy L w appId ver app Happ)
    as (rows & start & mid & o & tail & Hrows & Hstart & Hloop & Hf & _).
  fold dir w1 in Hrows, Hstart, Hloop. rewrite Hf.
  apply loop_any in Hloop as (_ & _ & K).
  replace (files w1) with (files start) by (by destruct Hstart as [->| ->]).
  apply K. intros row Hin Hpath. destruct Hrows as [->|Hm].
  - by apply elem_of_nil in Hin.
  - by apply (Hp rows row).
Qed.

(** X2: whatever its outcome, a revert on a project of the registry
    writes only blobs of the target: every [writeFile] it issues puts,
    at the path of a row present in the target and not unmodified, the
    blob that [git.readBlob] returned for that path at the target; every
    [unlink] is for a row absent from the target; and [git.remove] is
    only called for a path it has just unlinked. *)
Theorem revert_writes_only_target_blobs (w : World G) (appId : Z) (ver : string)
    (app : App) :
  find_app appId w = Some app →
  let dir := lib_appPath L (app_path app) in
  let w1 := (git_checkout C dir "main" true w).1 in
  ∃ evs,
    trace (revert_version C appId ver w).1 = trace w ++ evs ∧
    (∀ p data, EvWriteFile p data ∈ evs →
       ∃ matrix fp h wd st,
         lib_statusMatrix L dir ver (repo w1, files w1) = Returned matrix ∧
         (fp, h, wd, st) ∈ matrix ∧ h = 1 ∧ wd ≠ 1 ∧ p = path_join dir fp ∧
         EvReadBlob dir ver fp (Returned data) ∈ evs) ∧
    (∀ p, EvUnlink p ∈ evs →
       ∃ matrix fp h wd st,
         lib_statusMatrix L dir ver (repo w1, files w1) = Returned matrix ∧
         (fp, h, wd, st) ∈ matrix ∧ h = 0 ∧ wd ≠ 0 ∧ p = path_join dir fp) ∧
    (∀ d fp, EvRemove d fp ∈ evs → d = dir ∧ EvUnlink (path_join dir fp) ∈ evs).
Proof.
  intros Happ dir w1.
  destruct (revert_version_anatomy L w appId ver app Happ)
    as (rows & start & mid & o & tail & Hrows & Hstart & Hloop & _ & Ht & Hq & _).
  fold dir w1 in Hrows, Hstart, Hloop.
  apply loop_any in Hloop as (_ & (loop & Htl & (Fl & W & U & R & _)) & _).
  destruct (checkout_trace L dir "main" true w) as [Ht1 _]. fold w1 in Ht1.
  clearbody w1.
  assert (Hpre : ∃ pre, trace start = trace w ++ pre ∧
                        Forall (λ ev, is_row_event ev = false) pre).
  { destruct Hstart as [->| ->]; simpl; rewrite Ht1, <- ?app_assoc;
      eexists; (split; [reflexivity|by repeat constructor]). }
  destruct Hpre as (pre & Hts & Hqp).
  assert (Hmatrix : ∀ row, row ∈ rows →
            lib_statusMatrix L dir ver (repo w1, files w1) = Returned rows).
  { intros row Hin. destruct Hrows as [->|?]; [by apply elem_of_nil in Hin|done]. }
  assert (Hin_loop : ∀ ev, is_row_event ev = true → ev ∈ pre ++ loop ++ tail → ev ∈ loop).
  { intros ev Hev [Hin|[Hin|Hin]%elem_of_app]%elem_of_app; [|done|].
    - rewrite Forall_forall in Hqp. apply Hqp in Hin. congruence.
    - rewrite Forall_forall in Hq. apply Hq in Hin. congruence. }
  assert (Hloop_in : ∀ ev, ev ∈ loop → ev ∈ pre ++ loop ++ tail).
  { intros ev Hin. rewrite !elem_of_app. auto. }
  exists (pre ++ loop ++ tail). split; [by rewrite Ht, Htl, Hts, <- !app_assoc|].
  split_and!.
  - intros p data Hin%Hin_loop; [|done].
    destruct (W p data Hin) as (fp & h & wd & st & Hrow & ? & ? & ? & ?).
    exists rows, fp, h, wd, st. split_and!; eauto.
  - intros p Hin%Hin_loop; [|done].
    destruct (U p Hin) as (fp & h & wd & st & Hrow & ? & ? & ?).
    exists rows, fp, h, wd, st. split_and!; eauto.
  - intros d fp Hin%Hin_loop; [|done]. destruct (R d fp Hin). auto.
Qed.

(** X3: a revert that throws leaves the [messages] table as it was: the
    timeline is pruned only once the commit is made. *)
Theorem failing_revert_keeps_messages (w : World G) (appId : Z) (ver : string)
    (e : JsError) :
  (revert_version C appId ver w).2 = Raised e →
  messages (revert_version C appId ver w).1 = messages w.
Proof.
  intros He. destruct (revert_messages_cases L w appId ver) as [?|(r & ? & Hr & _)];
    [done|congruence].
Qed.

(** X4: whatever its outcome, a revert never adds or reorders messages,
    and a message it removes always comes, in the same chat, after a
    message that carries the target hash. *)
Theorem revert_removes_only_later_messages (w : World G) (appId : Z) (ver : string) :
  let out := revert_version C appId ver w in
  sublist (messages out.1) (messages w) ∧
  ∀ m, m ∈ messages w → m ∉ messages out.1 →
    ∃ e, e ∈ messages w ∧ msg_commitHash e = Some ver ∧
         msg_chatId m = msg_chatId e ∧ msg_id e < msg_id m.
Proof.
  intros out. subst out.
  destruct (revert_messages_cases L w appId ver) as [->|(r & e & _ & Hfind & ->)].
  - split; [done|]. intros m Hin Hnot. done.
  - split; [apply sublist_filter|].
    intros m Hin Hnot. exists e.
    unfold find_message in Hfind. apply find_some in Hfind as [He Hhash].
    apply bool_decide_eq_true in Hhash. apply list_elem_of_In in He.
    rewrite list_elem_of_filter in Hnot. unfold after in Hnot.
    destruct (decide (msg_chatId m = msg_chatId e ∧ msg_id e < msg_id m)); tauto.
Qed.

(** X5: when the message that carries the target hash is the last of
    its chat, a revert that returns issues no [db.delete]: it logs
    ["Deleting 0 messages ..."] and the table is unchanged. *)
Theorem revert_skips_empty_delete (w wf : World G) (appId : Z) (ver : string)
    (r : SuccessResult) (e : Message) :
  revert_version C appId ver w = (wf, Returned r) →
  find_message ver w = Some e →
  (∀ m, m ∈ messages w → ¬ after (msg_chatId e) (msg_id e) m) →
  messages wf = messages w ∧
  logs wf = logs w ++
    [LogInfo ("Deleting 0 messages after commit " +:+ ver +:+
              " from chat " +:+ num (msg_chatId e))] ∧
  ∃ evs, trace wf = trace w ++ evs ∧ ∀ chatId i, EvDeleteMessages chatId i ∉ evs.
Proof.
  intros Hrun Hfind Hlast.
  assert (Hnone : filter (after (msg_chatId e) (msg_id e)) (messages w) = []).
  { induction (messages w) as [|m l IH]; [done|]. rewrite filter_cons.
    rewrite decide_False by (apply Hlast; apply elem_of_cons; by left).
    apply IH. intros m' Hin. apply Hlast. apply elem_of_cons. by right. }
  destruct (revert_returns_calls L w wf appId ver r Hrun)
    as (app & matrix & loop & author & _ & _ & (Fl & _) & _ & Ht).
  pose proof (revert_messages_cases L w appId ver) as Hm. rewrite Hrun in Hm. simpl in Hm.
  split; [|split].
  - destruct Hm as [?|(? & e' & _ & He' & ->)]; [done|].
    rewrite Hfind in He'. injection He' as <-. apply filter_none. by rewrite Hnone.
  - assert (Hret := Hrun). apply revert_version_returns in Hret
      as (app' & w1 & matrix' & w3 & w4 & author' & w6 & c & _ & H1 & _ & H3 & H4 & _ & H6 & H7 & _).
    destruct (revert_tail_frame _ _ _ _ _ _ _ _ _ _ H4 H6 H7) as (_ & Hm6 & Hl6 & _).
    destruct (loop_frame _ _ _ _ _ _ H3) as (Hm3 & Hl3 & _).
    apply git_checkout_files_trace in H1 as (_ & Hm1 & Hl1).
    destruct (prune_messages_effect L ver w6) as (w' & Hp & _ & _ & _ & Hcase).
    rewrite H7 in Hp. injection Hp as <-.
    assert (Hms : messages w6 = messages w) by (rewrite Hm6, Hm3; simpl; done).
    unfold find_message in Hcase, Hfind. rewrite Hms, Hfind in Hcase.
    destruct Hcase as [_ ->]. unfold deleting_line. rewrite Hnone.
    rewrite Hl6, Hl3. simpl. by rewrite Hl1.
  - eexists. split; [exact Ht|]. intros chatId i Hin.
    rewrite !elem_of_app in Hin. destruct Hin as [Hin|[Hin|[Hin|Hin]]].
    + set_unfold. naive_solver.
    + rewrite Forall_forall in Fl. by apply Fl in Hin.
    + set_unfold. naive_solver.
    + unfold prune_trace in Hin. rewrite Hfind, Hnone in Hin. simpl in Hin.
      set_unfold. naive_solver.
Qed.

(** X6: the calls of a revert that returns, in order: the forced
    checkout of ["main"], the status comparison, the calls of the loop,
    one [git.add] of ["."], the author lookup, one commit with the message
    ["Reverted all changes back to version "] followed by the target and
    the author just looked up, then the calls on the [messages] table. *)
Theorem revert_call_order (w wf : World G) (appId : Z) (ver : string)
    (r : SuccessResult) :
  revert_version C appId ver w = (wf, Returned r) →
  ∃ app loop author,
    find_app appId w = Some app ∧
    gitAuthor w = Returned author ∧
    Forall (λ ev, is_row_event ev = true) loop ∧
    trace wf = trace w ++
      [EvCheckout (lib_appPath L (app_path app)) "main" true;
       EvStatusMatrix (lib_appPath L (app_path app)) ver] ++ loop ++
      [EvAdd (lib_appPath L (app_path app)) ["."]; EvGetGitAuthor;
       EvCommit (lib_appPath L (app_path app))
         ("Reverted all changes back to version " +:+ ver) author] ++
      prune_trace ver w.
Proof.
  intros Hrun.
  destruct (revert_returns_calls L w wf appId ver r Hrun)
    as (app & matrix & loop & author & Happ & _ & (Fl & _) & Ha & Ht).
  by exists app, loop, author.
Qed.

(** X7: [list-versions] only reads: files, store and messages are left
    as they are; its one call on the library is [git.log] with depth
    10000, made only for a project of the registry that has a [.git];
    and the versions it returns are the commits of [git.log], in order. *)
Theorem list_versions_reads_only (w : World G) (appId : Z) :
  let out := list_versions C appId w in
  files out.1 = files w ∧ repo out.1 = repo w ∧ messages out.1 = messages w ∧
  (trace out.1 = trace w ∨
   ∃ app, find_app appId w = Some app ∧
          exists_sync (files w) (path_join (lib_appPath L (app_path app)) [".git"])
            = true ∧
          trace out.1 = trace w ++ [EvLog (lib_appPath L (app_path app)) 10000]) ∧
  (∀ versions, out.2 = Returned versions →
     versions = [] ∨
     ∃ app commits,
       find_app appId w = Some app ∧
       lib_log L (lib_appPath L (app_path app)) 10000 (repo w) = Returned commits ∧
       versions = to_version <$> commits).
Proof.
  unfold list_versions. unfold_monad.
  change (db_apps_findFirst C appId w) with (w, Returned (find_app appId w)).
  destruct (find_app appId w) as [app|]; simpl; [|by split_and!; auto].
  destruct (exists_sync (files w) _) eqn:Hgit; simpl.
  - destruct (lib_log L _ 10000 (repo w)) as [commits|e] eqn:Hlog; simpl.
    + split_and!; eauto 10. intros ? [= <-]. eauto 10.
    + split_and!; eauto 10. discriminate.
  - split_and!; auto. intros ? [= <-]. auto.
Qed.

(** X8: [get-current-branch] only reads: files, store and messages are
    left as they are, and its one call on the library is
    [git.currentBranch] with [fullname: false], made only for a project
    of the registry that has a [.git]. *)
Theorem get_current_branch_reads_only (w : World G) (appId : Z) :
  let out := get_current_branch C appId w in
  files out.1 = files w ∧ repo out.1 = repo w ∧ messages out.1 = messages w ∧
  (trace out.1 = trace w ∨
   ∃ app, find_app appId w = Some app ∧
          exists_sync (files w) (path_join (lib_appPath L (app_path app)) [".git"])
            = true ∧
          trace out.1
            = trace w ++ [EvCurrentBranch (lib_appPath L (app_path app)) false]).
Proof.
  unfold get_current_branch. unfold_monad.
  change (db_apps_findFirst C appId w) with (w, Returned (find_app appId w)).
  destruct (find_app appId w) as [app|]; simpl; [|by split_and!; auto].
  destruct (exists_sync (files w) _) eqn:Hgit; simpl; [|by split_and!; auto].
  destruct (lib_currentBranch L _ false (repo w)) as [b|e]; simpl; split_and!; eauto 10.
Qed.

End Extras.

Section GenericExtras.
Context {S : Type} (c : Collab S).

(** X9: the branch of a success of [get-current-branch] is never the
    empty string: an empty or missing name becomes ["<no-branch>"]. *)
Theorem branch_name_never_empty (appId : Z) (s s' : S) (branch : string) :
  get_current_branch c appId s = (s', Returned (BranchSuccess branch)) →
  branch ≠ "" ∧
  (branch = "<no-branch>" ∨
   ∃ app s0 s1,
     db_apps_findFirst c appId s = (s0, Returned (Some app)) ∧
     git_currentBranch c (getDyadAppPath c (app_path app)) false s0
       = (s1, Returned (Some branch))).
Proof.
  unfold get_current_branch. unfold_monad.
  destruct (db_apps_findFirst c appId s) as [s0 [[app|]|rejected]];
    [|discriminate|discriminate].
  destruct (fs_existsSync c _ s0); simpl; [|discriminate].
  destruct (git_currentBranch c _ false s0) as [s1 [b|e]] eqn:Hb; [|discriminate].
  intros [= <- <-]. unfold or_else. destruct b as [name|]; [|by auto].
  case_decide; [by auto|]. split; [done|]. right. eauto.
Qed.

(** X10: [checkout-version] throws exactly in three cases: the error
    of the lookup of the project when that lookup rejects; ["App not
    found"] for an unknown project, without any further call; and, when
    the forced [git.checkout] of the version throws, the message
    ["Failed to checkout version: "] followed by the message of the
    cause, after one line in the error log.  Otherwise it returns
    [{ success: true }] in the world the checkout left. *)
Theorem checkout_failure_is_wrapped (appId : Z) (versionId : string) (s : S) :
  match db_apps_findFirst c appId s with
  | (s0, Raised rejected) =>
    checkout_version c appId versionId s = (s0, Raised rejected)
  | (s0, Returned None) =>
    checkout_version c appId versionId s = (s0, Raised (Error "App not found"))
  | (s0, Returned (Some app)) =>
    match git_checkout c (getDyadAppPath c (app_path app)) versionId true s0 with
    | (s1, Returned _) =>
      checkout_version c appId versionId s = (s1, Returned {| success := true |})
    | (s1, Raised cause) =>
      checkout_version c appId versionId s
        = (logger_error c
             ("Error checking out version " +:+ versionId +:+
              " for app " +:+ num appId +:+ ":") cause s1,
           Raised (Error ("Failed to checkout version: " +:+ err_message cause)))
    end
  end.
Proof.
  unfold checkout_version. unfold_monad.
  destruct (db_apps_findFirst c appId s) as [s0 [[app|]|rejected]]; [|done|done].
  by destruct (git_checkout c _ versionId true s0) as [s1 [[]|cause]].
Qed.

End GenericExtras.

(** ** The further properties on the example worlds *)
Section MoreWitnesses.
Import SimpleGit Examples MoreExamples.

Lemma reverted_to_head_returns :
  revert_version (world_collab lib) 1 "c2" on_main
    = (reverted_to_head, Returned {| success := true |}).
Proof. vm_compute. reflexivity. Qed.

Lemma revert_touches_only_asked_paths_witness :
  find_app 1 on_main = Some {| app_id := 1; app_path := "demo" |} ∧
  files on_main !! (demo ++ ["a.txt"]) = Some (File (bytes "two")) ∧
  files reverted_to_head !! (demo ++ ["a.txt"]) = Some (File (bytes "two")).
Proof.
  split; [reflexivity|]. split; [reflexivity|].
  destruct (revert_touches_only_asked_paths lib on_main 1 "c2"
              {| app_id := 1; app_path := "demo" |} (demo ++ ["a.txt"]) eq_refl)
    as (Hfile & _).
  - intros matrix row Hm Hin _. vm_compute in Hm. injection Hm as <-.
    apply list_elem_of_In in Hin. simpl in Hin.
    repeat (destruct Hin as [<-|Hin]; [reflexivity|]). destruct Hin.
  - apply Hfile. vm_compute. reflexivity.
Defined.

Lemma revert_writes_only_target_blobs_witness :
  find_app 1 on_main = Some {| app_id := 1; app_path := "demo" |} ∧
  ∀ p data, EvWriteFile p data ∈ trace reverted →
    ∃ fp, p = demo ++ fp ∧ EvReadBlob demo "c1" fp (Returned data) ∈ trace reverted.
Proof.
  split; [reflexivity|].
  destruct (revert_writes_only_target_blobs lib on_main 1 "c1"
              {| app_id := 1; app_path := "demo" |} eq_refl)
    as (evs & Ht & Hwrite & _).
  change (trace reverted = evs) in Ht. rewrite Ht.
  intros p data Hin.
  destruct (Hwrite p data Hin) as (matrix & fp & h & wd & st & _ & _ & _ & _ & Hp & Hread).
  exists fp. split; [exact Hp|exact Hread].
Defined.

Lemma failing_revert_keeps_messages_witness :
  (revert_version (world_collab lib) 1 "c1" no_author).2
    = Raised (Error "Failed to revert version: Could not read the git author") ∧
  messages (revert_version (world_collab lib) 1 "c1" no_author).1 = demo_messages.
Proof.
  assert (H : (revert_version (world_collab lib) 1 "c1" no_author).2
              = Raised (Error "Failed to revert version: Could not read the git author"))
    by (vm_compute; reflexivity).
  split; [exact H|].
  exact (failing_revert_keeps_messages lib no_author 1 "c1" _ H).
Defined.

Lemma revert_skips_empty_delete_witness :
  revert_version (world_collab lib) 1 "c2" on_main
    = (reverted_to_head, Returned {| success := true |}) ∧
  messages reverted_to_head = demo_messages ∧
  logs reverted_to_head = [LogInfo "Deleting 0 messages after commit c2 from chat 7"].
Proof.
  split; [exact reverted_to_head_returns|].
  destruct (revert_skips_empty_delete lib on_main reverted_to_head 1 "c2" _
              {| msg_id := 5; msg_chatId := 7; msg_commitHash := Some "c2" |}
              reverted_to_head_returns eq_refl)
    as (Hm & Hl & _).
  - intros m Hin. apply list_elem_of_In in Hin. simpl in Hin. unfold after.
    repeat (destruct Hin as [<-|Hin]; [simpl; lia|]). destruct Hin.
  - split; [exact Hm|exact Hl].
Defined.

Lemma revert_call_order_witness :
  revert_version (world_collab lib) 1 "c1" on_main
    = (reverted, Returned {| success := true |}) ∧
  ∃ loop,
    Forall (λ ev, is_row_event ev = true) loop ∧
    trace reverted =
      [EvCheckout demo "main" true; EvStatusMatrix demo "c1"] ++ loop ++
      [EvAdd demo ["."]; EvGetGitAuthor;
       EvCommit demo "Reverted all changes back to version c1" demo_author;
       EvFindMessage "c1"; EvFindMessages 7 3; EvDeleteMessages 7 3].
Proof.
  split; [exact reverted_returns|].
  destruct (revert_call_order lib on_main reverted 1 "c1" _ reverted_returns)
    as (app & loop & author & Happ & Ha & Hloop & Ht).
  vm_compute in Happ. injection Happ as <-. injection Ha as <-.
  exists loop. split; [exact Hloop|]. rewrite Ht. reflexivity.
Defined.

Lemma branch_name_never_empty_witness :
  get_current_branch (world_collab lib) 1 on_main
    = (record (EvCurrentBranch demo false) on_main, Returned (BranchSuccess "main")) ∧
  "main" ≠ "".
Proof.
  assert (H : get_current_branch (world_collab lib) 1 on_main
              = (record (EvCurrentBranch demo false) on_main,
                 Returned (BranchSuccess "main"))) by reflexivity.
  split; [exact H|].
  exact (proj1 (branch_name_never_empty (world_collab lib) 1 on_main _ "main" H)).
Defined.

End MoreWitnesses.

(** ** Repeating a revert, and a loop that throws *)

Lemma find_filter {A} (f : A → bool) (Q : A → Prop) `{∀ x, Decision (Q x)}
    (l : list A) (e : A) :
  List.find f l = Some e → Q e → List.find f (filter Q l) = Some e.
Proof.
  induction l as [|x l IH]; [done|]. simpl. rewrite filter_cons.
  destruct (f x) eqn:Hfx.
  - intros [= ->] He. rewrite decide_True by done. simpl. by rewrite Hfx.
  - intros Hfind He. destruct (decide (Q x)); [simpl; rewrite Hfx|]; by apply IH.
Qed.

Lemma filter_twice {A} (Q : A → Prop) `{∀ x, Decision (Q x)} (l : list A) :
  filter Q (filter Q l) = filter Q l.
Proof.
  induction l as [|x l IH]; [done|]. rewrite filter_cons.
  destruct (decide (Q x)); [|done]. rewrite filter_cons, decide_True by done.
  by rewrite IH.
Qed.

(** The loop stops at the first row that throws. *)
Lemma for_of_raised {S A} (f : A → M S unit) (l : list A) : ∀ (s s' : S) (e : JsError),
  for_of l f s = (s', Raised e) →
  ∃ before row rest s1,
    l = before ++ row :: rest ∧
    for_of before f s = (s1, Returned tt) ∧
    f row s1 = (s', Raised e).
Proof.
  induction l as [|x l IH]; intros s s' e H; [discriminate|].
  simpl in H. unfold_monad. destruct (f x s) as [s1 [[]|e1]] eqn:Hx.
  - apply IH in H as (before & row & rest & s2 & -> & Hb & Hrow).
    exists (x :: before), row, rest, s2. split; [done|]. split; [|done].
    simpl. unfold_monad. by rewrite Hx.
  - injection H as <- <-. exists [], x, l, s. by split.
Qed.

Lemma for_of_snoc {S A} (f : A → M S unit) (l : list A) (x : A) : ∀ (s s1 : S),
  for_of l f s = (s1, Returned tt) → for_of (l ++ [x]) f s = (f x;; mret tt) s1.
Proof.
  induction l as [|y l IH]; intros s s1 H.
  - by injection H as <-.
  - simpl in *. unfold mbind, M_bind in *. destruct (f y s) as [s2 [[]|e]]; [|discriminate].
    by apply IH.
Qed.

Section Repeating.
Context {G : Type} (L : GitLib G).
Local Abbreviation C := (world_collab L).

(** X11: once a revert has returned, a second revert to the same
    target removes no further message, whatever its outcome. *)
Theorem second_revert_removes_nothing (w w1 : World G) (appId appId' : Z)
    (ver : string) (r : SuccessResult) :
  revert_version C appId ver w = (w1, Returned r) →
  messages (revert_version C appId' ver w1).1 = messages w1.
Proof.
  intros Hrun.
  destruct (revert_messages_cases L w1 appId' ver) as [?|(r' & e' & _ & Hfind' & ->)];
    [done|].
  pose proof (revert_messages_cases L w appId ver) as Hfirst.
  rewrite Hrun in Hfirst. simpl in Hfirst.
  unfold find_message in *.
  destruct Hfirst as [Hsame|(? & e & _ & Hfind & Hm)].
  - assert (Hnone : filter (after (msg_chatId e') (msg_id e')) (messages w1) = []).
    2:{ apply filter_none. by rewrite Hnone. }
    (* the first revert found nothing to remove after the same message *)
    rewrite Hsame in *.
    pose proof Hrun as Hret. apply revert_version_returns in Hret
      as (app & v1 & matrix & w3 & w4 & author & w6 & c & _ & H1 & _ & H3 & H4 & _ & H6 & H7 & _).
    destruct (revert_tail_frame _ _ _ _ _ _ _ _ _ _ H4 H6 H7) as (_ & Hm6 & _).
    destruct (loop_frame _ _ _ _ _ _ H3) as (Hm3 & _).
    apply git_checkout_files_trace in H1 as (_ & Hm1 & _).
    assert (Hms : messages w6 = messages w) by (rewrite Hm6, Hm3; simpl; done).
    destruct (prune_messages_effect L ver w6) as (w' & Hp & _ & _ & _ & Hcase).
    rewrite H7 in Hp. injection Hp as <-.
    unfold find_message in Hcase. rewrite Hms, Hfind' in Hcase.
    destruct Hcase as [Hkept _]. rewrite Hsame in Hkept.
    pose proof (length_filter_split (after (msg_chatId e') (msg_id e')) (messages w)) as Hlen.
    rewrite <- Hkept in Hlen. apply nil_length_inv. lia.
  - rewrite Hm in Hfind' |- *.
    rewrite (find_filter _ _ _ e Hfind) in Hfind' by (unfold after; lia).
    injection Hfind' as <-. apply filter_twice.
Qed.

(** X12: when the loop over the matrix throws, it throws at one row:
    the rows before it were processed and returned, the rows after it
    are not looked at.  Every call made is asked for by the rows up to
    that one, and a path that none of them asks to change is left as it
    was. *)
Theorem loop_stops_at_failing_row (dir : Path) (ver : string)
    (matrix : list StatusRow) (w w' : World G) (e : JsError) :
  for_of matrix (revert_row C dir ver) w = (w', Raised e) →
  ∃ before row rest w1,
    matrix = before ++ row :: rest ∧
    for_of before (revert_row C dir ver) w = (w1, Returned tt) ∧
    revert_row C dir ver row w1 = (w', Raised e) ∧
    (∃ evs, trace w' = trace w ++ evs ∧ justified dir ver (before ++ [row]) evs) ∧
    (∀ p, (∀ r, r ∈ before ++ [row] → path_join dir (row_filepath r) = p →
                asks_nothing r = true) →
          keeps p (files w) (files w')).
Proof.
  intros H. apply for_of_raised in H as (before & row & rest & w1 & -> & Hb & Hrow).
  exists before, row, rest, w1. split; [done|]. split; [done|]. split; [done|].
  pose proof (for_of_snoc _ _ row _ _ Hb) as Hloop.
  unfold mbind, M_bind in Hloop. rewrite Hrow in Hloop.
  apply loop_any in Hloop as (_ & Hj & Hk). auto.
Qed.

End Repeating.

Section RepeatWitnesses.
Import SimpleGit Examples MoreExamples.

Lemma second_revert_removes_nothing_witness :
  revert_version (world_collab lib) 1 "c1" on_main
    = (reverted, Returned {| success := true |}) ∧
  msg_id <$> messages reverted = [1; 2; 3; 6] ∧
  msg_id <$> messages (revert_version (world_collab lib) 1 "c1" reverted).1
    = [1; 2; 3; 6].
Proof.
  split; [exact reverted_returns|]. split; [vm_compute; reflexivity|].
  rewrite (second_revert_removes_nothing lib on_main reverted 1 1 "c1" _ reverted_returns).
  vm_compute. reflexivity.
Defined.

Lemma loop_stops_at_failing_row_witness :
  ∃ w',
    for_of broken_matrix (revert_row (world_collab lib) demo "c1") on_main
      = (w', Raised (Error "Could not find file or directory.")) ∧
    files w' !! (demo ++ ["a.txt"]) = Some (File (bytes "one")) ∧
    files w' !! (demo ++ ["c.txt"]) = Some (File (bytes "see")).
Proof.
  set (out := for_of broken_matrix (revert_row (world_collab lib) demo "c1") on_main).
  assert (Hout : out = (out.1, Raised (Error "Could not find file or directory.")))
    by (vm_compute; reflexivity).
  exists out.1. split; [exact Hout|]. split; [vm_compute; reflexivity|].
  destruct (loop_stops_at_failing_row lib demo "c1" broken_matrix on_main out.1 _ Hout)
    as (before & row & rest & w1 & Hsplit & Hb & Hrow & _ & Hkeeps).
  clearbody out.
  destruct (Hkeeps (demo ++ ["c.txt"])) as (Hfile & _); [|apply Hfile; reflexivity].
  intros r Hin Hpath. exfalso. clear Hkeeps.
  unfold broken_matrix in Hsplit.
  destruct before as [|r1 [|r2 [|r3 before]]]; simpl in Hsplit.
  - injection Hsplit as <- <-. injection Hb as <-.
    vm_compute in Hrow. discriminate Hrow.
  - injection Hsplit as <- <- <-.
    apply list_elem_of_In in Hin. simpl in Hin.
    destruct Hin as [<-|[<-|[]]]; vm_compute in Hpath; discriminate Hpath.
  - injection Hsplit as <- <- <- <-. vm_compute in Hb. discriminate Hb.
  - injection Hsplit as _ _ _ Hnil. by destruct before.
Defined.

End RepeatWitnesses.
